(** * doob-terarium: the face identity server and the motion converter

    A shallow embedding of the numeric and control logic of
    [module-face-id-sever/face_server.py] and
    [module-motion-generation/npy_to_fbx.py].

    Python integers are [Z], array lengths are [nat], exceptions are the
    [Raise] case of [result].  The motion pipeline is written once over an
    abstract scalar type ([Scalar]) and run on binary64 ([float]), the
    arrays being taken as float64; what depends on the arithmetic is proved
    on binary64, the real numbers ([R]) serving to measure rounding
    errors. *)

From Stdlib Require Import String Ascii DecimalString.
From Stdlib Require Import ZArith List Bool Lia.
From Stdlib Require Import Floats Reals Lra.
Import ListNotations.

Set Warnings "-inexact-float".

(** ** Python exceptions *)

Inductive exn : Type :=
| ValueError
| ZeroDivisionError
| OverflowError
| IndexError.

Inductive result (A : Type) : Type :=
| Ok (a : A)
| Raise (e : exn).

Arguments Ok {A} a.
Arguments Raise {A} e.

Definition bind {A B : Type} (r : result A) (k : A -> result B) : result B :=
  match r with
  | Ok a => k a
  | Raise e => Raise e
  end.

Notation "x <- r ;; k" := (bind r (fun x => k))
  (at level 61, r at next level, right associativity).

(** The results of a list of computations, or the first exception. *)
Fixpoint gather {A : Type} (l : list (result A)) : result (list A) :=
  match l with
  | [] => Ok []
  | r :: rest => a <- r ;; others <- gather rest ;; Ok (a :: others)
  end.

(** ** Scalars

    The operations numpy applies to array elements.  [fgtb a b] is [a > b],
    [feqb a b] is [a == b], [of_int] the conversion of a Python integer,
    [to_int] is [int(x)] (truncation toward zero, raising on NaN and
    infinities). *)

Class Scalar (F : Type) : Type := {
  fzero : F;
  fadd : F -> F -> F;
  fsub : F -> F -> F;
  fmul : F -> F -> F;
  fdiv : F -> F -> F;
  fsqrt : F -> F;
  fgtb : F -> F -> bool;
  feqb : F -> F -> bool;
  of_int : Z -> F;
  to_int : F -> result Z
}.

(** *** binary64

    Python's float and numpy's float64.  [float_of_Z] is the conversion of an
    integer below 2^63 in magnitude; [float_to_int] reads the value
    [(-1)^s * m * 2^e] off the float and drops its fractional part. *)

Definition float_of_Z (z : Z) : float :=
  match z with
  | Z0 => PrimFloat.zero
  | Zpos _ => PrimFloat.of_uint63 (Uint63.of_Z z)
  | Zneg p => PrimFloat.opp (PrimFloat.of_uint63 (Uint63.of_Z (Zpos p)))
  end.

Definition float_to_int (x : float) : result Z :=
  match Prim2SF x with
  | S754_nan => Raise ValueError
  | S754_infinity _ => Raise OverflowError
  | S754_zero _ => Ok 0%Z
  | S754_finite s m e =>
      let v := if (0 <=? e)%Z then Z.shiftl (Zpos m) e
               else Z.shiftr (Zpos m) (- e) in
      Ok (if s then (- v)%Z else v)
  end.

#[export] Instance float_scalar : Scalar float := {
  fzero := PrimFloat.zero;
  fadd := PrimFloat.add;
  fsub := PrimFloat.sub;
  fmul := PrimFloat.mul;
  fdiv := PrimFloat.div;
  fsqrt := PrimFloat.sqrt;
  fgtb := fun a b => PrimFloat.ltb b a;
  feqb := PrimFloat.eqb;
  of_int := float_of_Z;
  to_int := float_to_int
}.

(** The place of a float in the order of [<]: a class by sign, then exponent
    and mantissa in the direction of the sign; NaN has none. *)
Definition sf_rank (x : spec_float) : option (Z * Z * Z) :=
  match x with
  | S754_nan => None
  | S754_infinity true => Some (-2, 0, 0)%Z
  | S754_finite true m e => Some (-1, - e, Zneg m)%Z
  | S754_zero _ => Some (0, 0, 0)%Z
  | S754_finite false m e => Some (1, e, Zpos m)%Z
  | S754_infinity false => Some (2, 0, 0)%Z
  end.

Definition lex_lt (a b : Z * Z * Z) : Prop :=
  let '(a1, a2, a3) := a in
  let '(b1, b2, b3) := b in
  (a1 < b1 \/ (a1 = b1 /\ (a2 < b2 \/ (a2 = b2 /\ a3 < b3))))%Z.

(** *** Rounding to binary64 *)

(** [m / 2^k] rounded to the nearest integer, ties to the even one. *)
Definition round_shift (m k : Z) : Z :=
  let q := (m / 2 ^ k)%Z in
  let r := (m mod 2 ^ k)%Z in
  if (2 * r <? 2 ^ k)%Z then q
  else if (2 ^ k <? 2 * r)%Z then (q + 1)%Z
       else if Z.even q then q else (q + 1)%Z.

(** The exponent of the binary64 format for a number of [d + e] binary
    digits before the point. *)
Definition fexp64 (x : Z) : Z := Z.max (x - 53) (-1074).

(** The float that [m * 2^e] rounds to, [k] low bits of [m] being dropped:
    the rounded mantissa with the exponent [e + k], the next binade when the
    rounding carries to 2^53, infinity when the exponent is out of range. *)
Definition rounded (s : bool) (m : positive) (e : Z) : spec_float :=
  let k := (fexp64 (Z.pos (digits2_pos m) + e) - e)%Z in
  match round_shift (Z.pos m) k with
  | Z0 => S754_zero s
  | Z.pos p =>
      if (Z.pos p =? 2 ^ 53)%Z then
        if (e + k + 1 <=? 971)%Z
        then S754_finite s 4503599627370496 (e + k + 1)
        else S754_infinity s
      else
        if (e + k <=? 971)%Z then S754_finite s p (e + k)
        else S754_infinity s
  | Z.neg _ => S754_nan
  end.

(** *** The real number a binary64 number stands for *)

Definition bpow (e : Z) : R := powerRZ 2 e.

Definition signR (s : bool) : R := if s then (-1)%R else 1%R.


Definition is_finite_SF (x : spec_float) : bool :=
  match x with
  | S754_zero _ | S754_finite _ _ _ => true
  | _ => false
  end.


Definition finite (x : float) : bool := is_finite_SF (Prim2SF x).

(** *** exact reals

    The same operations without rounding. *)

Definition R_trunc (x : R) : Z :=
  if Rle_dec 0 x then Int_part x else (- Int_part (- x))%Z.

#[export] Instance R_scalar : Scalar R := {
  fzero := 0%R;
  fadd := Rplus;
  fsub := Rminus;
  fmul := Rmult;
  fdiv := Rdiv;
  fsqrt := sqrt;
  fgtb := fun a b => if Rlt_dec b a then true else false;
  feqb := fun a b => if Req_dec_T a b then true else false;
  of_int := IZR;
  to_int := fun x => Ok (R_trunc x)
}.

(** ** Trajectories

    An array of shape (frames, joints, 3): every frame holds the same number
    of joints, every joint three coordinates. *)

Record joint (F : Type) : Type := mkJoint { jx : F; jy : F; jz : F }.

Arguments mkJoint {F} jx jy jz.
Arguments jx {F} j.
Arguments jy {F} j.
Arguments jz {F} j.

Definition pose (F : Type) : Type := list (joint F).
Definition trajectory (F : Type) : Type := list (pose F).

Definition rectangular {F : Type} (data : trajectory F) : Prop :=
  forall p q, In p data -> In q data -> length p = length q.

Module Motion.

(** Module options of npy_to_fbx.py. *)
Definition LOOP_MIN_FRAMES : Z := 15.
Definition LOOP_MAX_FRAMES : Z := 60.

Section Pipeline.

Context {F : Type} {SF : Scalar F}.

(** [STOP_THRESHOLD = 0.002], the literal read as the nearest scalar to
    2/1000. *)
Definition STOP_THRESHOLD : F := fdiv (of_int 2) (of_int 1000).

Definition jsub (a b : joint F) : joint F :=
  mkJoint (fsub (jx a) (jx b)) (fsub (jy a) (jy b)) (fsub (jz a) (jz b)).

(** [np.linalg.norm] along the coordinate axis: the square root of the sum
    of the squares, added in index order. *)
Definition jnorm (a : joint F) : F :=
  fsqrt (fadd (fadd (fmul (jx a) (jx a)) (fmul (jy a) (jy a)))
              (fmul (jz a) (jz a))).

(** Elementwise operation on two arrays of one shape. *)
Fixpoint zip_with {A B C : Type} (f : A -> B -> C) (l : list A) (m : list B)
  : list C :=
  match l, m with
  | a :: l', b :: m' => f a b :: zip_with f l' m'
  | _, _ => []
  end.

(** The sum of a row, added in index order (numpy may add in another
    order; no statement below depends on the rounding of a sum). *)
Definition fsum (l : list F) : F := fold_left fadd l fzero.

(** [np.mean] of one row. *)
Definition fmean (l : list F) : F :=
  fdiv (fsum l) (of_int (Z.of_nat (length l))).

(** [data[1:] - data[:-1]], then the norm of every joint. *)
Definition frame_diffs (data : trajectory F) : list (list F) :=
  zip_with (fun p q => map jnorm (zip_with jsub p q))
           (tl data) (removelast data).

(** Entry [i] is the mean displacement of the joints between frames [i]
    and [i + 1]. *)
Definition motion_energy (data : trajectory F) : list F :=
  map fmean (frame_diffs data).

(** [range(start, stop, -1)]. *)
Definition range_down (start stop : Z) : list Z :=
  map (fun k => (start - Z.of_nat k)%Z) (seq 0 (Z.to_nat (start - stop))).

(** [a[i]] for an index that is not negative; the loop below reads inside
    the array only. *)
Definition item (a : list F) (i : Z) : F := nth (Z.to_nat i) a fzero.

(** The [for ... break] loop of detect_active_frames. *)
Fixpoint scan_active (energy : list F) (threshold : F) (idx : list Z)
    (real_end : Z) : Z :=
  match idx with
  | [] => real_end
  | i :: rest =>
      if fgtb (item energy i) threshold then (i + 2)%Z
      else scan_active energy threshold rest real_end
  end.

Definition detect_active_frames (data : trajectory F) (threshold : F) : Z :=
  let total_frames := Z.of_nat (length data) in
  let energy := motion_energy data in
  let real_end :=
    scan_active energy threshold (range_down (total_frames - 2) 0)
                total_frames in
  Z.max 10 (Z.min real_end total_frames).

(** [a[:n]]: a negative [n] counts from the end. *)
Definition prefix {A : Type} (a : list A) (n : Z) : list A :=
  if (n <? 0)%Z then firstn (length a - Z.to_nat (- n)) a
  else firstn (Z.to_nat n) a.

(** The trimming step of convert_single_file:
    [active_len = detect_active_frames(...)], [trimmed = data[:active_len]]. *)
Definition trim_trailing_idle (data : trajectory F) (threshold : F)
  : trajectory F :=
  let active_len := detect_active_frames data threshold in
  prefix data active_len.

(** *** Loop closure *)

(** [np.maximum a b]: a NaN operand wins. *)
Definition np_maximum (a b : F) : F :=
  if (fgtb a b || feqb a b) || negb (feqb a a) then a else b.

(** [np.max] of a one-dimensional array; it raises on an empty one. *)
Definition np_max (l : list F) : result F :=
  match l with
  | [] => Raise ValueError
  | a :: rest => Ok (fold_left np_maximum rest a)
  end.

(** [data[0]] and [data[-1]]. *)
Definition first_frame (data : trajectory F) : result (pose F) :=
  match data with
  | [] => Raise IndexError
  | p :: _ => Ok p
  end.

Definition last_frame (data : trajectory F) : result (pose F) :=
  match data with
  | [] => Raise IndexError
  | p :: rest => Ok (last rest p)
  end.

(** Lines 75-78: the largest distance between a joint's first and last
    position. *)
Definition max_dist (data : trajectory F) : result F :=
  start_pose <- first_frame data ;;
  end_pose <- last_frame data ;;
  np_max (map jnorm (zip_with jsub start_pose end_pose)).

(** Lines 79-80: [int(max_dist * 40)] clamped to the loop bounds. *)
Definition transition_len (data : trajectory F) : result Z :=
  d <- max_dist data ;;
  n <- to_int (fmul d (of_int 40)) ;;
  Ok (Z.max LOOP_MIN_FRAMES (Z.min LOOP_MAX_FRAMES n)).

(** [np.linspace(0, 1, num)]: multiples of the step, the last sample set to
    the end point. *)
Definition linspace01 (num : nat) : list F :=
  let start := of_int 0 in
  let stop := of_int 1 in
  let delta := fsub stop start in
  match num with
  | O => []
  | S O => [fadd (fmul (of_int 0) delta) start]
  | S div =>
      let step := fdiv delta (of_int (Z.of_nat div)) in
      map (fun i => fadd (fmul (of_int (Z.of_nat i)) step) start) (seq 0 div)
      ++ [stop]
  end.

(** [t * t * (3 - 2 * t)]. *)
Definition smoothstep (t : F) : F :=
  fmul (fmul t t) (fsub (of_int 3) (fmul (of_int 2) t)).

(** The interpolation weights: [np.linspace(0, 1, n + 1)[1:]], eased. *)
Definition loop_weights (n : Z) : list F :=
  map smoothstep (tl (linspace01 (Z.to_nat n + 1))).

(** [end * (1 - s) + start * s] on one joint. *)
Definition blend_joint (s : F) (e b : joint F) : joint F :=
  let mix u v := fadd (fmul u (fsub (of_int 1) s)) (fmul v s) in
  mkJoint (mix (jx e) (jx b)) (mix (jy e) (jy b)) (mix (jz e) (jz b)).

Definition blend_pose (end_pose start_pose : pose F) (s : F) : pose F :=
  zip_with (blend_joint s) end_pose start_pose.

(** Lines 81-84: the generated frames. *)
Definition loop_frames (data : trajectory F) : result (trajectory F) :=
  start_pose <- first_frame data ;;
  end_pose <- last_frame data ;;
  n <- transition_len data ;;
  Ok (map (blend_pose end_pose start_pose) (loop_weights n)).

Definition append_loop_frames (data : trajectory F)
  : result (trajectory F) :=
  frames <- loop_frames data ;;
  Ok (data ++ frames).

(** *** Smoothing *)

Definition SMOOTH_WINDOW : Z := 5.

(** One output of numpy's correlation of [a] with the window [w], [n_left]
    entries of the window hanging over the left edge at output 0: the sum,
    in index order, of the products of the entries that overlap (numpy may
    add in another order; no statement below depends on the rounding of
    this sum). *)
Definition correlate_at (a w : list F) (n_left i : nat) : F :=
  fold_left fadd
    (map (fun j => fmul (nth (i + j - n_left) a fzero) (nth j w fzero))
         (filter (fun j => (n_left <=? i + j)%nat
                           && (i + j - n_left <? length a)%nat)
                 (seq 0 (length w))))
    fzero.

(** [np.convolve(a, v, mode='same')]: the longer argument is correlated with
    the reversed shorter one; the output is as long as the longer one.  An
    empty argument raises. *)
Definition np_convolve_same (a v : list F) : result (list F) :=
  match a, v with
  | [], _ => Raise ValueError
  | _, [] => Raise ValueError
  | _, _ =>
      let '(a, v) := if (length a <? length v)%nat then (v, a) else (a, v) in
      let w := rev v in
      Ok (map (correlate_at a w (length w / 2)) (seq 0 (length a)))
  end.

Definition joint0 : joint F := mkJoint fzero fzero fzero.

(** [data[:, j, c]], the coordinate picked by [axis]. *)
Definition column (data : trajectory F) (j : nat) (axis : joint F -> F)
  : list F :=
  map (fun p => axis (nth j p joint0)) data.

(** [smoothed_data[:, j, c] = np.convolve(...)]: the assignment raises when
    the lengths differ. *)
Definition smooth_column (kernel col : list F) : result (list F) :=
  out <- np_convolve_same col kernel ;;
  if Nat.eqb (length out) (length col) then Ok out else Raise ValueError.

(** apply_smoothing, on an array with at least one joint (an array without
    frames then has empty columns, on which the convolution raises). *)
Definition apply_smoothing (data : trajectory F) (window_size : Z)
  : result (trajectory F) :=
  if (window_size <=? 1)%Z then Ok data
  else
    match data with
    | [] => Raise ValueError
    | p0 :: _ =>
        let kernel :=
          repeat (fdiv (of_int 1) (of_int window_size))
                 (Z.to_nat window_size) in
        cols <- gather
          (map (fun j =>
                  xs <- smooth_column kernel (column data j jx) ;;
                  ys <- smooth_column kernel (column data j jy) ;;
                  zs <- smooth_column kernel (column data j jz) ;;
                  Ok (xs, ys, zs))
               (seq 0 (length p0))) ;;
        Ok (map (fun i =>
                   map (fun '(xs, ys, zs) =>
                          mkJoint (nth i xs fzero) (nth i ys fzero)
                                  (nth i zs fzero))
                       cols)
                (seq 0 (length data)))
    end.

(** *** The array read from the file *)

(** What np.load returns, by its number of dimensions: frames of flat
    coordinates with the row length [dims], frames of [n_joints] joints with
    three coordinates each, or anything else. *)
Inductive raw_array : Type :=
| Raw2 (dims : nat) (rows : list (list F))
| Raw3 (n_joints : nat) (frames : trajectory F)
| RawOther.

(** [row.reshape(n_joints, 3)]. *)
Fixpoint joints_of (row : list F) : pose F :=
  match row with
  | x :: y :: z :: rest => mkJoint x y z :: joints_of rest
  | _ => []
  end.

(** Lines 98-114 of convert_single_file: the array as frames of 22 joints;
    [None] where the function returns False. *)
Definition data_3d_of (raw_data : raw_array) : option (trajectory F) :=
  let shaped :=
    match raw_data with
    | Raw2 dims rows =>
        if Nat.eqb dims 263 then None
        else if Nat.eqb (dims mod 3) 0
             then Some ((dims / 3)%nat, map joints_of rows)
             else None
    | Raw3 n_joints frames => Some (n_joints, frames)
    | RawOther => None
    end in
  match shaped with
  | None => None
  | Some (n_joints, data_3d) =>
      if Nat.eqb n_joints 22 then Some data_3d
      else if (22 <? n_joints)%nat then Some (map (firstn 22) data_3d)
           else None
  end.

End Pipeline.

(** *** Orientation *)

(** The functions of Python's [math] module that process_motion_data uses. *)
Class Trig (F : Type) : Type := {
  radians : F -> F;
  fcos : F -> F;
  fsin : F -> F
}.

#[global] Instance R_trig : Trig R := {
  radians := fun d => (d * PI / 180)%R;
  fcos := cos;
  fsin := sin
}.

Section Orientation.

Context {F : Type} {SF : Scalar F} {TF : Trig F}.

(** [FIX_ROTATION = -90]. *)
Definition FIX_ROTATION : F := of_int (-90).

Definition rotate_joint (cos_r sin_r : F) (j : joint F) : joint F :=
  let x := jx j in
  let z := jz j in
  mkJoint (fsub (fmul x cos_r) (fmul z sin_r))
          (jy j)
          (fadd (fmul x sin_r) (fmul z cos_r)).

(** process_motion_data, with the module option FIX_ROTATION as its first
    argument. *)
Definition process_motion_data (fix_rotation : F) (data : trajectory F)
  : trajectory F :=
  if negb (feqb fix_rotation (of_int 0)) then
    let rad := radians fix_rotation in
    let cos_r := fcos rad in
    let sin_r := fsin rad in
    map (map (rotate_joint cos_r sin_r)) data
  else data.

(** [MAKE_LOOP = True]. *)
Definition MAKE_LOOP : bool := true.

(** Lines 118-124 of convert_single_file: rotation, trimming, smoothing and
    loop closure, in this order. *)
Definition clean_motion (data_3d : trajectory F) : result (trajectory F) :=
  let corrected_data := process_motion_data FIX_ROTATION data_3d in
  let active_len := detect_active_frames corrected_data STOP_THRESHOLD in
  let trimmed_data := prefix corrected_data active_len in
  smoothed_data <- apply_smoothing trimmed_data SMOOTH_WINDOW ;;
  if MAKE_LOOP then append_loop_frames smoothed_data else Ok smoothed_data.

End Orientation.

End Motion.

(** ** Poses compared on binary64 *)

(** [a == b] on floats, and on joints and poses coordinate by coordinate. *)
Definition same_joint (j j' : joint float) : Prop :=
  (jx j =? jx j')%float = true /\
  (jy j =? jy j')%float = true /\
  (jz j =? jz j')%float = true.

Definition finite_joint (j : joint float) : bool :=
  finite (jx j) && finite (jy j) && finite (jz j).

Definition same_pose (p q : pose float) : Prop := Forall2 same_joint p q.

(** *** The tolerance of the yaw correction *)






(** ** The face server (face_server.py) *)

Module FaceServer.

Open Scope float_scope.

(** A uint8 array element is a [Z] between 0 and 255; a pixel holds three. *)
Definition pixel : Type := (Z * Z * Z)%type.

(** An array of shape (h, w, 3) as its rows. *)
Definition image : Type := list (list pixel).

Record face : Type := mkFace {
  bbox : float * float * float * float;
  embedding : list float
}.

(** The engines the server calls and this development does not define: the
    OpenCV operations, the float power function and the face model. *)
Class Engine : Type := {
  cv2_resize : image -> Z -> Z -> result image;
  cv2_convertScaleAbs : image -> float -> float -> image;
  float_pow : float -> float -> float;
  face_app_get : image -> list face
}.

Record img_config : Type := mkConfig {
  FLIP_VERTICAL : bool;
  TARGET_SIZE : Z;
  CROP_CENTER : bool;
  GAMMA : float;
  CONTRAST : float;
  BRIGHTNESS : Z;
  DEBUG_SAVE : bool
}.

Definition IMG_CONFIG : img_config :=
  mkConfig false 640 true 1.2 1.1 10 true.

Definition SIMILARITY_THRESHOLD : float := 0.5.

(** The embedding store: a dict, kept in insertion order. *)
Definition store : Type := list (string * list float).

(** *** Image pipeline *)

(** [a[start:stop]] with Python's treatment of negative and overlong
    bounds. *)
Definition slice {A : Type} (a : list A) (start stop : Z) : list A :=
  let len := Z.of_nat (length a) in
  let norm i := if (i <? 0)%Z then Z.max 0 (i + len) else Z.min i len in
  let lo := norm start in
  let hi := norm stop in
  firstn (Z.to_nat (hi - lo)) (skipn (Z.to_nat lo) a).

Fixpoint pixels_of (buf : list Z) : list pixel :=
  match buf with
  | c0 :: c1 :: c2 :: rest => (c0, c1, c2) :: pixels_of rest
  | _ => []
  end.

Fixpoint rows_of (h w : nat) (px : list pixel) : image :=
  match h with
  | O => []
  | S h' => firstn w px :: rows_of h' w (skipn w px)
  end.

(** [buf.reshape((h, w, 3))] as decode_image calls it: the sizes must agree.
    A negative dimension raises as well: numpy would read it as a dimension
    to infer, which needs the other one positive, and decode_image never
    passes that. *)
Definition reshape (buf : list Z) (h w : Z) : result image :=
  if (h <? 0)%Z || (w <? 0)%Z then Raise ValueError
  else if (h * w * 3 =? Z.of_nat (length buf))%Z
  then Ok (rows_of (Z.to_nat h) (Z.to_nat w) (pixels_of buf))
  else Raise ValueError.

(** Python's [a // b] on integers. *)
Definition floordiv (a b : Z) : result Z :=
  if (b =? 0)%Z then Raise ZeroDivisionError else Ok (a / b)%Z.

(** Lines 88-96: the buffer as an array of rows.  [img_bytes] is the decoded
    base64 payload. *)
Definition decode_image (img_bytes : list Z) (width height : Z)
  : result image :=
  let img_np := img_bytes in
  let size := Z.of_nat (length img_np) in
  if negb (size =? width * height * 3)%Z then
    eff_size3 <- floordiv size 3 ;;
    let eff_size := (eff_size3 * 3)%Z in
    let img_np := slice img_np 0 eff_size in
    h_eff <- floordiv eff_size (width * 3) ;;
    reshape img_np h_eff width
  else
    reshape img_np height width.

Definition shape (img : image) : Z * Z :=
  (Z.of_nat (length img), Z.of_nat (length (hd [] img))).

Definition uint8_of_float (x : float) : result Z :=
  n <- float_to_int x ;; Ok (n mod 256)%Z.

Definition map_pixels (f : Z -> Z) (img : image) : image :=
  map (map (fun '(c0, c1, c2) => (f c0, f c1, f c2))) img.

Fixpoint collect {A : Type} (l : list (result A)) : result (list A) :=
  match l with
  | [] => Ok []
  | r :: rest => a <- r ;; tail <- collect rest ;; Ok (a :: tail)
  end.

Section Handlers.

Context {E : Engine}.

Definition adjust_lut (img : image) (gamma : float) : result image :=
  if gamma =? 1.0 then Ok img
  else
    let inv_gamma := 1.0 / gamma in
    table <- collect
      (map (fun i => uint8_of_float
                       (float_pow (float_of_Z i / 255.0) inv_gamma * 255))
           (map Z.of_nat (seq 0 256))) ;;
    Ok (map_pixels (fun c => nth (Z.to_nat c) table 0%Z) img).

Definition process_image (img_bytes : list Z) (width height : Z)
  : result image :=
  img <- decode_image img_bytes width height ;;
  let img := map (map (fun '(c0, c1, c2) => (c2, c1, c0))) img in
  let img := if FLIP_VERTICAL IMG_CONFIG then rev img else img in
  let '(h, w) := shape img in
  let target := TARGET_SIZE IMG_CONFIG in
  if (Z.min h w =? 0)%Z then Raise ZeroDivisionError
  else
    let scale := float_of_Z target / float_of_Z (Z.min h w) in
    new_w <- float_to_int (float_of_Z w * scale) ;;
    new_h <- float_to_int (float_of_Z h * scale) ;;
    img <- cv2_resize img new_w new_h ;;
    let img :=
      if CROP_CENTER IMG_CONFIG then
        let start_x := ((new_w - target) / 2)%Z in
        let start_y := ((new_h - target) / 2)%Z in
        map (fun row => slice row start_x (start_x + target))
            (slice img start_y (start_y + target))
      else img in
    img <- adjust_lut img (GAMMA IMG_CONFIG) ;;
    Ok (cv2_convertScaleAbs img (CONTRAST IMG_CONFIG)
                            (float_of_Z (BRIGHTNESS IMG_CONFIG))).

(** Lines 110-113 on their own: the window of [target] rows and columns
    that starts at [(new - target) // 2]. *)
Definition center_crop (img : image) (new_w new_h target : Z) : image :=
  let start_x := ((new_w - target) / 2)%Z in
  let start_y := ((new_h - target) / 2)%Z in
  map (fun row => slice row start_x (start_x + target))
      (slice img start_y (start_y + target)).

(** The number of entries such a window keeps of [n]: all [target] of them
    when there are enough, and otherwise only those the negative start index
    leaves. *)
Definition crop_len (n target : Z) : Z :=
  if (target <=? n)%Z then target
  else Z.min n ((target - n + 1) / 2).

(** The channels of an image in storage order. *)
Definition channels_of (img : image) : list Z :=
  flat_map (flat_map (fun '(c0, c1, c2) => [c0; c1; c2])) img.

(** *** Matching *)

(** The sum of the products, accumulated in index order. *)
Fixpoint dot_from (acc : float) (a b : list float) : float :=
  match a, b with
  | x :: a', y :: b' => dot_from (acc + x * y) a' b'
  | _, _ => acc
  end.

(** [np.dot] of two vectors: their lengths must agree. *)
Definition np_dot (a b : list float) : result float :=
  if Nat.eqb (length a) (length b) then Ok (dot_from 0 a b)
  else Raise ValueError.

(** [numpy.linalg.norm] of a vector. *)
Definition norm (a : list float) : float := PrimFloat.sqrt (dot_from 0 a a).

(** The cosine similarity of line 124, in binary64 throughout.  (The face
    model's embedding holds float32 numbers, whose norm numpy rounds to
    float32; the statements below take the similarity as it comes and do
    not depend on its rounding.) *)
Definition similarity (embedding data : list float) : result float :=
  d <- np_dot embedding data ;;
  Ok (d / (norm embedding * norm data)).

(** The loop of find_match over the items of the store. *)
Fixpoint find_match_from (embedding : list float) (items : store)
    (best_id : option string) (best_sim : float)
  : result (option string * float) :=
  match items with
  | [] => Ok (best_id, best_sim)
  | (vid, data) :: rest =>
      sim <- similarity embedding data ;;
      if best_sim <? sim
      then find_match_from embedding rest (Some vid) sim
      else find_match_from embedding rest best_id best_sim
  end.

Definition find_match (face_db : store) (embedding : list float)
  : result (option string * float) :=
  find_match_from embedding face_db None 0.0.

(** What the scan holds at any point: nothing found and score 0.0, or an
    identifier with a strictly positive score. *)
Definition best_ok (best : option string * float) : Prop :=
  (fst best = None /\ snd best = 0) \/
  (exists vid, fst best = Some vid /\ (0 <? snd best) = true).

(** *** The verify handler *)

Definition area (f : face) : float :=
  let '(x1, y1, x2, y2) := bbox f in (x2 - x1) * (y2 - y1).

(** [max(faces, key=area)]: the first face of largest area. *)
Definition largest_face (f0 : face) (rest : list face) : face :=
  fold_left (fun best f => if area best <? area f then f else best) rest f0.

Inductive verify_response : Type :=
| NoFace
| Verdict (visitor_id : option string) (is_registered : bool)
          (similarity : float)
| ServerError (e : exn).

Definition verify_faces (face_db : store) (faces : list face)
  : result verify_response :=
  match faces with
  | [] => Ok NoFace
  | f0 :: rest =>
      let face := largest_face f0 rest in
      found <- find_match face_db (embedding face) ;;
      let '(vid, sim) := found in
      if SIMILARITY_THRESHOLD <? sim
      then Ok (Verdict vid true sim)
      else Ok (Verdict (Some EmptyString) false sim)
  end.

(** The handler: any exception becomes the status-500 answer. *)
Definition verify (face_db : store) (img_bytes : list Z) (width height : Z)
  : verify_response :=
  match (img <- process_image img_bytes width height ;;
         verify_faces face_db (face_app_get img)) with
  | Ok r => r
  | Raise e => ServerError e
  end.

(** *** The register handler *)

(** [vid = str(d.get("uuid", "unknown"))], prefixed with "visitor_" unless
    it already is. *)
Definition visitor_id_of (uuid : option string) : string :=
  let vid := match uuid with
             | Some u => u
             | None => "unknown"%string
             end in
  if String.prefix "visitor_" vid then vid
  else String.append "visitor_" vid.

(** [face_db[vid] = data]: an existing key keeps its place, a new one goes
    last. *)
Fixpoint assign (face_db : store) (vid : string) (data : list float)
  : store :=
  match face_db with
  | [] => [(vid, data)]
  | (k, v) :: rest =>
      if String.eqb k vid then (k, data) :: rest
      else (k, v) :: assign rest vid data
  end.

Fixpoint lookup (face_db : store) (vid : string) : option (list float) :=
  match face_db with
  | [] => None
  | (k, v) :: rest => if String.eqb k vid then Some v else lookup rest vid
  end.

Inductive register_response : Type :=
| Registered (visitor_id : string)
| RegisterNoFace
| RegisterError (e : exn).

(** The mapping in memory and the content of face_db.json. *)
Record server_state : Type := mkServer {
  face_db : store;
  db_file : store
}.

(** The handler, for a file write that succeeds: the whole mapping is
    written after the assignment. *)
Definition register (st : server_state) (uuid : option string)
    (img_bytes : list Z) (width height : Z)
  : server_state * register_response :=
  match process_image img_bytes width height with
  | Raise e => (st, RegisterError e)
  | Ok img =>
      let vid := visitor_id_of uuid in
      match face_app_get img with
      | [] => (st, RegisterNoFace)
      | f0 :: rest =>
          let face := largest_face f0 rest in
          let db := assign (face_db st) vid (embedding face) in
          (mkServer db db, Registered vid)
      end
  end.

End Handlers.

End FaceServer.

(** ** The batch driver (npy_to_fbx.py, the main block) *)

Module Batch.

Open Scope string_scope.

Definition INPUT_DIR : string :=
  "/home/ubuntu/Documents/HumanML/HumanML3D/HumanML3D/new_joints".
Definition OUTPUT_DIR : string :=
  "/home/ubuntu/Documents/HumanML/HumanML3D/HumanML3D/final_motions_fbx_clean".

(** A row of the input manifest, as csv.DictReader yields it. *)
Record task : Type := mkTask {
  prompt : string;
  original_id : string;
  duration_sec : string
}.

(** A row of the output manifest. *)
Record clean_row : Type := mkRow {
  index : Z;
  row_prompt : string;
  row_original_id : string;
  row_duration_sec : string;
  fbx_filename : string
}.

(** The lines the loop prints, one per task. *)
Inductive event : Type :=
| MISSING (npy_filename : string)
| SUCCESS (clip_name original_id : string)
| FAIL (npy_filename : string).

(** What the loop asks of the outside: whether a path exists, and the
    conversion of one file (source path, output path, clip name), which
    starts from an empty scene and answers whether it succeeded. *)
Class Env : Type := {
  path_exists : string -> bool;
  convert_single_file : string -> string -> string -> bool
}.

(** [str.isspace] on the characters a [string] holds, the code points below
    256: tab to carriage return, the four separators, the space, and the
    next-line and no-break-space characters U+0085 and U+00A0. *)
Definition is_space (c : ascii) : bool :=
  let n := nat_of_ascii c in
  ((9 <=? n) && (n <=? 13) || (28 <=? n) && (n <=? 32)
   || (n =? 133) || (n =? 160))%nat.

Fixpoint lstrip (s : string) : string :=
  match s with
  | String c rest => if is_space c then lstrip rest else s
  | EmptyString => EmptyString
  end.

Definition reverse (s : string) : string :=
  string_of_list_ascii (rev (list_ascii_of_string s)).

(** [s.strip()]. *)
Definition strip (s : string) : string :=
  reverse (lstrip (reverse (lstrip s))).

Fixpoint zeros (n : nat) : string :=
  match n with
  | O => EmptyString
  | S n' => String "0" (zeros n')
  end.

(** [f"{n:04d}"]: the decimal digits, padded with zeros to four characters,
    the sign first. *)
Definition format_04d (n : Z) : string :=
  let digits := NilZero.string_of_uint (N.to_uint (Z.abs_N n)) in
  if (n <? 0)%Z then "-" ++ zeros (3 - String.length digits) ++ digits
  else zeros (4 - String.length digits) ++ digits.

(** [os.path.join(directory, name)] for a directory that does not end in a
    separator. *)
Definition path_join (directory name : string) : string :=
  match name with
  | String "/" _ => name
  | _ => directory ++ "/" ++ name
  end.

(** The variables of the loop and the two outputs it builds. *)
Record loop_state : Type := mkState {
  new_index : Z;
  success_count : Z;
  manifest : list clean_row;
  log : list event
}.

Section Loop.

Context {env : Env}.

(** One iteration, lines 246-283. *)
Definition loop_body (st : loop_state) (row : task) : loop_state :=
  let original_id := strip (original_id row) in
  let npy_filename := original_id ++ ".npy" in
  let source_path := path_join INPUT_DIR npy_filename in
  if negb (path_exists source_path) then
    mkState (new_index st) (success_count st) (manifest st)
            (log st ++ [MISSING npy_filename])
  else
    let clip_name := format_04d (new_index st) in
    let fbx_filename := clip_name ++ ".fbx" in
    let output_fbx_path := path_join OUTPUT_DIR fbx_filename in
    let is_success :=
      convert_single_file source_path output_fbx_path clip_name in
    if is_success then
      let new_row :=
        mkRow (new_index st) (prompt row) original_id (duration_sec row)
              fbx_filename in
      mkState (new_index st + 1) (success_count st + 1)
              (manifest st ++ [new_row])
              (log st ++ [SUCCESS clip_name original_id])
    else
      mkState (new_index st) (success_count st) (manifest st)
              (log st ++ [FAIL npy_filename]).

Definition conversion_loop (tasks : list task) : loop_state :=
  fold_left loop_body tasks (mkState 1 0 [] []).

(** Whether an item is converted when the next free index is [n]: its source
    file exists and its conversion under that number succeeds. *)
Definition converts_at (n : Z) (row : task) : bool :=
  let source_path := path_join INPUT_DIR (strip (original_id row) ++ ".npy") in
  path_exists source_path
  && convert_single_file source_path
       (path_join OUTPUT_DIR (format_04d n ++ ".fbx")) (format_04d n).

(** The items that are converted, told from the input and the outside alone:
    an item counts when it converts under the number free at its turn, and
    only then is that number used up. *)
Fixpoint successes (first : Z) (tasks : list task) : list task :=
  match tasks with
  | [] => []
  | t :: rest =>
      if converts_at first t then t :: successes (first + 1) rest
      else successes first rest
  end.

End Loop.

(** *** The spec's wording of the output manifest

    The successfully converted items, renumbered from 1. *)

Definition converted (e : event) : bool :=
  match e with
  | SUCCESS _ _ => true
  | _ => false
  end.

(** The tasks whose line in the log reports a success. *)
Definition converted_tasks (tasks : list task) (events : list event)
  : list task :=
  map fst (filter (fun te => converted (snd te)) (combine tasks events)).

Fixpoint renumber (first : Z) (tasks : list task) : list clean_row :=
  match tasks with
  | [] => []
  | t :: rest =>
      mkRow first (prompt t) (strip (original_id t)) (duration_sec t)
            (format_04d first ++ ".fbx")
      :: renumber (first + 1) rest
  end.

End Batch.

(** ** Sample inputs *)

Module Samples.

Definition at_x (x : float) : joint float := mkJoint x 0%float 0%float.

(** A pose of 22 joints, all at [(x, 0, 0)]. *)
Definition pose_at (x : float) : pose float := repeat (at_x x) 22.

(** Five motionless frames. *)
Definition short_clip : trajectory float := repeat (pose_at 0%float) 5.

(** A hundred frames: the skeleton jumps between frames 40 and 41 and is
    motionless before and after. *)
Definition step_clip : trajectory float :=
  repeat (pose_at 0%float) 41 ++ repeat (pose_at 1%float) 59.

(** Two frames whose joints travel 0.49 along x: 0.49 * 40 is about 19.6. *)
Definition reach_clip : trajectory float :=
  [pose_at 0%float; pose_at 0.49%float].

(** Two one-joint frames, the first at x = 1e16 + 2 and the last at
    x = 1e16. *)
Definition far_clip : trajectory float :=
  [[at_x 10000000000000002%float]; [at_x 10000000000000000%float]].

(** Python's [math] on binary64, as far as the samples go: [radians]
    multiplies by pi / 180; the cosine and the sine are given at a quarter
    turn and at an eighth of a turn, to either side, with the values the C
    library returns there (6.123233995736766e-17 and 1, and
    0.7071067811865476 and 0.7071067811865475); at other angles, which no
    sample reaches, they stand at 1 and 0. *)
Definition libm_samples : Motion.Trig float := {|
  Motion.radians := fun d => (d * (0x1.921fb54442d18p+1 / 180))%float;
  Motion.fcos := fun r =>
    (if abs r =? 0x1.921fb54442d18p+0 then 0x1.1a62633145c07p-54
     else if abs r =? 0x1.921fb54442d18p-1 then 0x1.6a09e667f3bcdp-1
     else 1)%float;
  Motion.fsin := fun r =>
    (let s := if abs r =? 0x1.921fb54442d18p+0 then 1
              else if abs r =? 0x1.921fb54442d18p-1 then 0x1.6a09e667f3bccp-1
              else 0 in
     if r <? 0 then - s else s)%float
|}.




(** A stand-in for the engines: resizing and contrast scaling leave the image
    as it is, the power function returns its base, and the face model finds
    one face with embedding (1, 1, 1, 1). *)
Definition stub_engine : FaceServer.Engine := {|
  FaceServer.cv2_resize := fun img _ _ => Ok img;
  FaceServer.cv2_convertScaleAbs := fun img _ _ => img;
  FaceServer.float_pow := fun x _ => x;
  FaceServer.face_app_get := fun _ =>
    [FaceServer.mkFace (0, 0, 10, 10)%float [1; 1; 1; 1]%float]
|}.

(** A store whose only embedding has cosine similarity 1/2 to the stub's. *)
Definition half_store : FaceServer.store :=
  [("visitor_a"%string, [1; 0; 0; 0]%float)].

(** A store whose embeddings all point away from the query (1, 0). *)
Definition away_store : FaceServer.store :=
  [("visitor_a"%string, [-1; 0]%float); ("visitor_b"%string, [-1; -1]%float)].

(** One pixel, and a buffer of ten bytes for a 2 x 2 image. *)
Definition one_pixel : list Z := [10; 20; 30]%Z.
Definition ten_bytes : list Z := [1; 2; 3; 4; 5; 6; 7; 8; 9; 10]%Z.

(** A batch of three tasks; the source of the second is missing and every
    conversion succeeds. *)
Definition walk : Batch.task := Batch.mkTask "walk" "a" "2.0".
Definition jump : Batch.task := Batch.mkTask "jump" "b" "1.5".
Definition wave : Batch.task := Batch.mkTask "wave" " c " "3.0".

Definition batch_env : Batch.Env := {|
  Batch.path_exists := fun path =>
    negb (String.eqb path (Batch.path_join Batch.INPUT_DIR "b.npy"));
  Batch.convert_single_file := fun _ _ _ => true
|}.

(** A store of two visitors, the second with the embedding of the stub's
    face. *)
Definition full_store : FaceServer.store :=
  [("visitor_a"%string, [1; 0; 0; 0]%float);
   ("visitor_b"%string, [1; 1; 1; 1]%float)].

(** An image of three rows of three pixels. *)
Definition tile : FaceServer.image :=
  repeat (repeat (0, 0, 0)%Z 3) 3.

(** One flat row of 69 coordinates, 23 joints. *)
Definition flat_row : list float := repeat 0%float 69.

End Samples.

(** ** The spec's wording of the transition length

    [round(maxDist * 40)] clamped to [15, 60], with [round] the nearest
    integer (ties to even), kept apart from [Motion.transition_len] for
    comparison. *)

Definition float_round (x : float) : result Z :=
  match Prim2SF x with
  | S754_nan => Raise ValueError
  | S754_infinity _ => Raise OverflowError
  | S754_zero _ => Ok 0%Z
  | S754_finite s m e =>
      let v :=
        if (0 <=? e)%Z then Z.shiftl (Zpos m) e
        else
          let q := Z.shiftr (Zpos m) (- e) in
          let r := (Zpos m - Z.shiftl q (- e))%Z in
          let half := Z.shiftl 1 (- e - 1) in
          if (half <? r)%Z || ((half =? r)%Z && Z.odd q) then (q + 1)%Z
          else q in
      Ok (if s then (- v)%Z else v)
  end.

Definition spec_transition_len (data : trajectory float) : result Z :=
  d <- Motion.max_dist data ;;
  n <- float_round (d * 40)%float ;;
  Ok (Z.max 15 (Z.min 60 n)).

(** * Properties *)

Section TrimFacts.

Context {F : Type} {SF : Scalar F}.

Lemma detect_active_frames_ge_10 (data : trajectory F) (threshold : F) :
  (10 <= Motion.detect_active_frames data threshold)%Z.
Proof.
  unfold Motion.detect_active_frames. apply Z.le_max_l.
Qed.

Lemma detect_active_frames_le_total (data : trajectory F) (threshold : F) :
  (10 <= length data)%nat ->
  (Motion.detect_active_frames data threshold <= Z.of_nat (length data))%Z.
Proof.
  intro Hlen. unfold Motion.detect_active_frames.
  apply Z.max_lub; [lia | apply Z.le_min_r].
Qed.

Lemma prefix_nonneg {A : Type} (a : list A) (n : Z) :
  (0 <= n)%Z -> Motion.prefix a n = firstn (Z.to_nat n) a.
Proof.
  intro Hn. unfold Motion.prefix.
  destruct (n <? 0)%Z eqn:E; [apply Z.ltb_lt in E; lia | reflexivity].
Qed.

Lemma trim_trailing_idle_firstn (data : trajectory F) (threshold : F) :
  Motion.trim_trailing_idle data threshold =
  firstn (Z.to_nat (Motion.detect_active_frames data threshold)) data.
Proof.
  unfold Motion.trim_trailing_idle. apply prefix_nonneg.
  pose proof (detect_active_frames_ge_10 data threshold). lia.
Qed.

Lemma in_range_down (start stop j : Z) :
  In j (Motion.range_down start stop) -> (stop < j <= start)%Z.
Proof.
  unfold Motion.range_down. rewrite in_map_iff.
  intros [k [<- Hk]]. apply in_seq in Hk. lia.
Qed.

Lemma range_down_cons (start stop : Z) :
  (stop < start)%Z ->
  Motion.range_down start stop = start :: Motion.range_down (start - 1) stop.
Proof.
  intro H. unfold Motion.range_down.
  replace (Z.to_nat (start - stop)) with (S (Z.to_nat (start - 1 - stop))) by lia.
  rewrite <- cons_seq, <- seq_shift. simpl. rewrite map_map.
  f_equal; [lia |]. apply map_ext. intro k. lia.
Qed.

Lemma range_down_nil (start stop : Z) :
  (start <= stop)%Z -> Motion.range_down start stop = [].
Proof.
  intro H. unfold Motion.range_down.
  replace (Z.to_nat (start - stop)) with 0%nat by lia. reflexivity.
Qed.

Lemma range_down_split (start mid stop : Z) :
  (stop <= mid <= start)%Z ->
  Motion.range_down start stop =
  Motion.range_down start mid ++ Motion.range_down mid stop.
Proof.
  intro H.
  remember (Z.to_nat (start - mid)) as n eqn:En.
  revert start H En. induction n as [| n IH]; intros start H En.
  - assert (start = mid) by lia. subst start.
    rewrite (range_down_nil mid mid) by lia. reflexivity.
  - rewrite (range_down_cons start stop) by lia.
    rewrite (range_down_cons start mid) by lia.
    simpl. f_equal. apply IH; lia.
Qed.

Lemma scan_active_hit (energy : list F) (threshold : F)
    (before : list Z) (i : Z) (after : list Z) (real_end : Z) :
  (forall j, In j before -> fgtb (Motion.item energy j) threshold = false) ->
  fgtb (Motion.item energy i) threshold = true ->
  Motion.scan_active energy threshold (before ++ i :: after) real_end
  = (i + 2)%Z.
Proof.
  intros Hbefore Hi. induction before as [| j before IH]; simpl.
  - rewrite Hi. reflexivity.
  - rewrite (Hbefore j) by (left; reflexivity).
    apply IH. intros k Hk. apply Hbefore. right. exact Hk.
Qed.

Lemma scan_active_miss (energy : list F) (threshold : F)
    (idx : list Z) (real_end : Z) :
  (forall j, In j idx -> fgtb (Motion.item energy j) threshold = false) ->
  Motion.scan_active energy threshold idx real_end = real_end.
Proof.
  intro H. induction idx as [| j idx IH]; simpl; [reflexivity |].
  rewrite (H j) by (left; reflexivity).
  apply IH. intros k Hk. apply H. right. exact Hk.
Qed.

(** The last frame whose energy exceeds the threshold decides the cut. *)
Lemma detect_active_frames_last_active (data : trajectory F) (threshold : F)
    (k : Z) :
  (1 <= k <= Z.of_nat (length data) - 2)%Z ->
  fgtb (Motion.item (Motion.motion_energy data) k) threshold = true ->
  (forall i, (k < i <= Z.of_nat (length data) - 2)%Z ->
     fgtb (Motion.item (Motion.motion_energy data) i) threshold = false) ->
  Motion.detect_active_frames data threshold = Z.max 10 (k + 2).
Proof.
  intros Hk Hat Hlater. unfold Motion.detect_active_frames.
  set (total := Z.of_nat (length data)) in *.
  rewrite (range_down_split (total - 2) k 0) by lia.
  rewrite (range_down_cons k 0) by lia.
  rewrite scan_active_hit.
  - rewrite Z.min_l by lia. reflexivity.
  - intros j Hj. apply in_range_down in Hj. apply Hlater. lia.
  - exact Hat.
Qed.

Lemma zip_with_length {A B C : Type} (f : A -> B -> C)
    (l : list A) (m : list B) :
  length (Motion.zip_with f l m) = Nat.min (length l) (length m).
Proof.
  revert m. induction l as [| a l IH]; intros [| b m]; simpl;
    try reflexivity.
  rewrite IH. reflexivity.
Qed.

Lemma motion_energy_length (data : trajectory F) :
  length (Motion.motion_energy data) = (length data - 1)%nat.
Proof.
  unfold Motion.motion_energy, Motion.frame_diffs.
  rewrite length_map, zip_with_length, length_tl.
  rewrite removelast_firstn_len, length_firstn. lia.
Qed.

(** X6: every index the loop of detect_active_frames reads lies inside
    [motion_energy]. *)
Lemma scan_indices_in_range (data : trajectory F) (i : Z) :
  In i (Motion.range_down (Z.of_nat (length data) - 2) 0) ->
  (0 < i < Z.of_nat (length (Motion.motion_energy data)))%Z.
Proof.
  intro Hi. apply in_range_down in Hi. rewrite motion_energy_length. lia.
Qed.

(** X1: when no frame the loop reads exceeds the threshold, the whole
    trajectory is kept. *)
Lemma trim_trailing_idle_no_motion (data : trajectory F) (threshold : F) :
  (forall i, (0 < i <= Z.of_nat (length data) - 2)%Z ->
     fgtb (Motion.item (Motion.motion_energy data) i) threshold = false) ->
  Motion.trim_trailing_idle data threshold = data.
Proof.
  intro Hquiet. rewrite trim_trailing_idle_firstn.
  unfold Motion.detect_active_frames.
  rewrite scan_active_miss.
  - apply firstn_all2. lia.
  - intros j Hj. apply Hquiet. apply in_range_down in Hj. exact Hj.
Qed.

(** C4 (amended): the trimmed trajectory is never longer than the input; it
    keeps at least 10 frames whenever the input has at least 10, and an input
    of fewer than 10 frames comes back whole. *)
Theorem trim_trailing_idle_bounds (data : trajectory F) (threshold : F) :
  (length (Motion.trim_trailing_idle data threshold) <= length data)%nat /\
  ((10 <= length data)%nat ->
   (10 <= length (Motion.trim_trailing_idle data threshold))%nat) /\
  ((length data < 10)%nat -> Motion.trim_trailing_idle data threshold = data).
Proof.
  rewrite trim_trailing_idle_firstn.
  pose proof (detect_active_frames_ge_10 data threshold) as Hge.
  repeat split.
  - rewrite length_firstn. apply Nat.le_min_r.
  - intro Hlen. rewrite length_firstn.
    pose proof (detect_active_frames_le_total data threshold Hlen). lia.
  - intro Hlen. apply firstn_all2. lia.
Qed.

(** C5: in a trajectory of 100 frames whose motion energy exceeds the
    threshold at index 40 and at no later index, the trimmed trajectory has
    exactly 42 frames. *)
Theorem trim_trailing_idle_cut_at_40 (data : trajectory F) (threshold : F) :
  length data = 100%nat ->
  fgtb (Motion.item (Motion.motion_energy data) 40) threshold = true ->
  (forall i, (40 < i <= 98)%Z ->
     fgtb (Motion.item (Motion.motion_energy data) i) threshold = false) ->
  length (Motion.trim_trailing_idle data threshold) = 42%nat.
Proof.
  intros Hlen Hat Hlater.
  rewrite trim_trailing_idle_firstn.
  rewrite (detect_active_frames_last_active data threshold 40).
  - rewrite length_firstn, Hlen. reflexivity.
  - rewrite Hlen. lia.
  - exact Hat.
  - intros i Hi. apply Hlater. rewrite Hlen in Hi. lia.
Qed.

End TrimFacts.

(** In binary64 the threshold is the float the literal 0.002 denotes. *)
Lemma STOP_THRESHOLD_binary64 :
  Motion.STOP_THRESHOLD (F := float) = 0.002%float.
Proof.
  vm_compute. reflexivity.
Qed.

(** Every index of a downward range passes a boolean test when the test
    holds on the whole range. *)
Lemma range_down_forallb (P : Z -> bool) (start stop i : Z) :
  forallb P (Motion.range_down start stop) = true ->
  (stop < i <= start)%Z -> P i = true.
Proof.
  intros Hall Hi. rewrite forallb_forall in Hall. apply Hall.
  unfold Motion.range_down. apply in_map_iff.
  exists (Z.to_nat (start - i)). split; [lia |].
  apply in_seq. lia.
Qed.

Lemma trim_trailing_idle_bounds_witness :
  (10 <= length Samples.step_clip)%nat /\
  (10 <= length (Motion.trim_trailing_idle Samples.step_clip
                   Motion.STOP_THRESHOLD))%nat.
Proof.
  split.
  - vm_compute. lia.
  - apply (trim_trailing_idle_bounds Samples.step_clip Motion.STOP_THRESHOLD).
    vm_compute. lia.
Defined.

(** C4 as stated fails on five motionless frames: all five are returned. *)
Lemma trim_short_clip_below_10 :
  length (Motion.trim_trailing_idle Samples.short_clip Motion.STOP_THRESHOLD)
  = 5%nat /\
  ~ (10 <= length (Motion.trim_trailing_idle Samples.short_clip
                     Motion.STOP_THRESHOLD))%nat.
Proof.
  split; [vm_compute; reflexivity | vm_compute; lia].
Qed.

Lemma trim_trailing_idle_cut_at_40_witness :
  length (Motion.trim_trailing_idle Samples.step_clip Motion.STOP_THRESHOLD)
  = 42%nat.
Proof.
  apply (trim_trailing_idle_cut_at_40 Samples.step_clip Motion.STOP_THRESHOLD).
  - vm_compute. reflexivity.
  - vm_compute. reflexivity.
  - intros i Hi.
    apply (range_down_forallb
             (fun j => negb (fgtb (Motion.item
                                     (Motion.motion_energy Samples.step_clip) j)
                                  Motion.STOP_THRESHOLD)) 98 40) in Hi.
    + apply negb_true_iff in Hi. exact Hi.
    + vm_compute. reflexivity.
Defined.

Lemma scan_indices_in_range_witness :
  (0 < 3 < Z.of_nat (length (Motion.motion_energy Samples.short_clip)))%Z.
Proof.
  apply (scan_indices_in_range Samples.short_clip 3).
  vm_compute. left. reflexivity.
Defined.

Lemma trim_trailing_idle_no_motion_witness :
  Motion.trim_trailing_idle Samples.short_clip Motion.STOP_THRESHOLD
  = Samples.short_clip.
Proof.
  apply (trim_trailing_idle_no_motion Samples.short_clip
           Motion.STOP_THRESHOLD).
  intros i Hi.
  apply (range_down_forallb
           (fun j => negb (fgtb (Motion.item
                                   (Motion.motion_energy Samples.short_clip) j)
                                Motion.STOP_THRESHOLD)) 3 0) in Hi.
  - apply negb_true_iff in Hi. exact Hi.
  - vm_compute. reflexivity.
Defined.

Section LoopFacts.

Context {F : Type} {SF : Scalar F}.

Lemma linspace01_length (num : nat) :
  length (Motion.linspace01 (F := F) num) = num.
Proof.
  destruct num as [| [| div]]; try reflexivity.
  unfold Motion.linspace01.
  rewrite length_app, length_map, length_seq. simpl. lia.
Qed.

Lemma loop_weights_length (n : Z) :
  length (Motion.loop_weights (F := F) n) = Z.to_nat n.
Proof.
  unfold Motion.loop_weights. rewrite length_map.
  pose proof (linspace01_length (Z.to_nat n + 1)) as H.
  destruct (Motion.linspace01 (Z.to_nat n + 1)) as [| t ts]; simpl in *; lia.
Qed.

Lemma zip_with_nonempty {A B C : Type} (f : A -> B -> C)
    (l : list A) (m : list B) :
  l <> [] -> m <> [] -> Motion.zip_with f l m <> [].
Proof.
  destruct l, m; simpl; congruence.
Qed.

Lemma last_frame_in (p : pose F) (rest : trajectory F) :
  In (last rest p) (p :: rest).
Proof.
  induction rest as [| q rest IH].
  - left. reflexivity.
  - destruct rest as [| r rest].
    + right. left. reflexivity.
    + change (last (q :: r :: rest) p) with (last (r :: rest) p).
      destruct IH as [H | H]; [left; exact H | right; right; exact H].
Qed.

Lemma max_dist_defined (data : trajectory F) :
  data <> [] -> (forall p, In p data -> p <> []) ->
  exists d, Motion.max_dist data = Ok d.
Proof.
  intros Hne Hposes. destruct data as [| p rest]; [congruence |].
  unfold Motion.max_dist. simpl.
  assert (Hz : Motion.zip_with Motion.jsub p (last rest p) <> []).
  { apply zip_with_nonempty.
    - apply Hposes. left. reflexivity.
    - apply Hposes. apply last_frame_in. }
  destruct (Motion.zip_with Motion.jsub p (last rest p)) as [| j js];
    [congruence |].
  simpl. eexists. reflexivity.
Qed.

Lemma append_loop_frames_grows (data : trajectory F) (n : Z) :
  Motion.transition_len data = Ok n ->
  exists out, Motion.append_loop_frames data = Ok out /\
              length out = (length data + Z.to_nat n)%nat.
Proof.
  intro Hn. unfold Motion.append_loop_frames, Motion.loop_frames.
  destruct data as [| p rest]; [discriminate |].
  cbn [Motion.first_frame Motion.last_frame bind]. rewrite Hn.
  cbn [bind]. eexists. split; [reflexivity |].
  rewrite length_app, length_map, loop_weights_length. reflexivity.
Qed.

(** C3 (amended): on a trajectory with at least one frame and one joint,
    maxDist is defined, and whenever [int(maxDist * 40)] (truncation toward
    zero) is some integer k, the loop closer appends exactly
    max(15, min(60, k)) frames. *)
Theorem append_loop_frames_length (data : trajectory F) :
  data <> [] -> (forall p, In p data -> p <> []) ->
  exists d, Motion.max_dist data = Ok d /\
    forall k, to_int (fmul d (of_int 40)) = Ok k ->
      let n := Z.max 15 (Z.min 60 k) in
      Motion.transition_len data = Ok n /\
      (15 <= n <= 60)%Z /\
      exists out, Motion.append_loop_frames data = Ok out /\
                  length out = (length data + Z.to_nat n)%nat.
Proof.
  intros Hne Hposes.
  destruct (max_dist_defined data Hne Hposes) as [d Hd].
  exists d. split; [exact Hd |].
  intros k Hk n.
  assert (Hn : Motion.transition_len data = Ok n).
  { unfold Motion.transition_len. rewrite Hd. cbn [bind]. rewrite Hk.
    reflexivity. }
  split; [exact Hn |]. split; [subst n; lia |].
  apply append_loop_frames_grows. exact Hn.
Qed.

End LoopFacts.

Lemma append_loop_frames_length_witness :
  exists out, Motion.append_loop_frames Samples.reach_clip = Ok out /\
              length out = 21%nat.
Proof.
  destruct (append_loop_frames_length Samples.reach_clip) as [d [Hd Hk]].
  - discriminate.
  - intros p [<- | [<- | []]]; discriminate.
  - vm_compute in Hd. injection Hd as <-.
    destruct (Hk 19%Z) as [_ [_ [out [Hout Hlen]]]].
    + vm_compute. reflexivity.
    + exists out. split; [exact Hout | exact Hlen].
Defined.

(** C3 as stated fails where maxDist * 40 has a fractional part of a half or
    more: here it is about 19.6, rounding gives 20 frames, the code appends
    19. *)
Lemma append_loop_frames_truncates :
  spec_transition_len Samples.reach_clip = Ok 20%Z /\
  Motion.transition_len Samples.reach_clip = Ok 19%Z /\
  exists out, Motion.append_loop_frames Samples.reach_clip = Ok out /\
              length out = (length Samples.reach_clip + 19)%nat.
Proof.
  split; [vm_compute; reflexivity |].
  split; [vm_compute; reflexivity |].
  apply (append_loop_frames_grows Samples.reach_clip 19).
  vm_compute. reflexivity.
Qed.

(** ** A rotation option of zero *)

Section ExactFacts.

Open Scope R_scope.

(** X4: a rotation option of 0 leaves the data as it is. *)
Lemma process_motion_data_zero (data : trajectory R) :
  Motion.process_motion_data 0 data = data.
Proof.
  unfold Motion.process_motion_data. cbn [feqb of_int R_scalar].
  destruct (Req_dec_T 0 0) as [_ | Hn]; [reflexivity | contradiction].
Qed.

End ExactFacts.

Lemma last_map_cons {A B : Type} (f : A -> B) (a : A) (l : list A)
    (d : A) (d' : B) :
  last (map f (a :: l)) d' = f (last (a :: l) d).
Proof.
  revert a. induction l as [| b l IH]; intro a; [reflexivity |].
  change (last (map f (a :: b :: l)) d') with (last (map f (b :: l)) d').
  change (last (a :: b :: l) d) with (last (b :: l) d).
  apply IH.
Qed.

(** ** Rounding to binary64

    What [binary_round_aux] of the Standard Library's [SpecFloat] computes on
    an exact product or sum, and how far the result is from it. *)

Section Shifting.

Lemma fexp64_eq (x : Z) : fexp prec emax x = fexp64 x.
Proof. reflexivity. Qed.

Lemma digits2_pos_bounds (p : positive) :
  (2 ^ (Z.pos (digits2_pos p) - 1) <= Z.pos p < 2 ^ Z.pos (digits2_pos p))%Z.
Proof.
  induction p as [p IH | p IH |]; cbn [digits2_pos].
  - rewrite Pos2Z.inj_succ.
    replace (Z.succ (Z.pos (digits2_pos p)) - 1)%Z
      with (Z.succ (Z.pos (digits2_pos p) - 1)) by lia.
    rewrite !Z.pow_succ_r by lia. lia.
  - rewrite Pos2Z.inj_succ.
    replace (Z.succ (Z.pos (digits2_pos p)) - 1)%Z
      with (Z.succ (Z.pos (digits2_pos p) - 1)) by lia.
    rewrite !Z.pow_succ_r by lia. lia.
  - simpl. lia.
Qed.

(** The number of digits is the only [d] with [2^(d-1) <= p < 2^d]. *)
Lemma digits2_pos_unique (p : positive) (d : Z) :
  (2 ^ (d - 1) <= Z.pos p < 2 ^ d)%Z -> Z.pos (digits2_pos p) = d.
Proof.
  intros [Hlo Hhi]. pose proof (digits2_pos_bounds p) as [Hlo' Hhi'].
  assert (Hd : (0 < d)%Z).
  { destruct (Z.lt_ge_cases 0 d) as [H | H]; [exact H |].
    destruct (Z.eq_dec d 0) as [-> | Hne].
    - simpl in Hhi. lia.
    - rewrite Z.pow_neg_r in Hhi by lia. lia. }
  destruct (Z.lt_trichotomy (Z.pos (digits2_pos p)) d) as [H | [H | H]];
    [| exact H |].
  - assert (2 ^ Z.pos (digits2_pos p) <= 2 ^ (d - 1))%Z
      by (apply Z.pow_le_mono_r; lia).
    lia.
  - assert (2 ^ d <= 2 ^ (Z.pos (digits2_pos p) - 1))%Z
      by (apply Z.pow_le_mono_r; lia).
    lia.
Qed.

Lemma iter_pos_nat {A : Type} (f : A -> A) (p : positive) (x : A) :
  SpecFloat.iter_pos f p x = Nat.iter (Pos.to_nat p) f x.
Proof.
  revert x. induction p as [p IH | p IH |]; intro x; cbn [SpecFloat.iter_pos].
  - rewrite !IH, Pos2Nat.inj_xI.
    replace (S (2 * Pos.to_nat p)) with (Pos.to_nat p + S (Pos.to_nat p))%nat
      by lia.
    rewrite Nat.iter_add, Nat.iter_succ_r. reflexivity.
  - rewrite !IH, Pos2Nat.inj_xO.
    replace (2 * Pos.to_nat p)%nat with (Pos.to_nat p + Pos.to_nat p)%nat
      by lia.
    rewrite Nat.iter_add. reflexivity.
  - reflexivity.
Qed.

Lemma shr_1_nonneg (m : Z) (r s : bool) :
  (0 <= m)%Z ->
  shr_1 (Build_shr_record m r s)
  = Build_shr_record (m / 2) (Z.odd m) (r || s).
Proof.
  intro Hm. rewrite <- Z.div2_div.
  destruct m as [| p | p]; [reflexivity | | lia].
  destruct p; reflexivity.
Qed.

(** What is left of [m] after [k] shifts to the right: the quotient by
    [2^k], whether the remainder reaches the half, and whether it is
    neither nothing nor the half. *)
Lemma shr_iter (m : Z) (k : nat) :
  (0 <= m)%Z ->
  let p := (2 ^ Z.of_nat k)%Z in
  let mrs := Nat.iter k shr_1 (Build_shr_record m false false) in
  shr_m mrs = (m / p)%Z /\
  (shr_r mrs = true <-> (p <= 2 * (m mod p))%Z) /\
  (shr_s mrs = true <-> (m mod p <> 0 /\ 2 * (m mod p) <> p)%Z).
Proof.
  intro Hm. induction k as [| k IH].
  - cbn [Nat.iter Z.of_nat shr_m shr_r shr_s]. rewrite Z.pow_0_r, Z.div_1_r, Z.mod_1_r.
    repeat split; try discriminate; lia.
  - cbv zeta in IH |- *. rewrite Nat.iter_succ.
    destruct (Nat.iter k shr_1 (Build_shr_record m false false))
      as [mk rk sk].
    cbn [shr_m shr_r shr_s] in IH. destruct IH as [Hq [Hr Hs]].
    assert (Hp : (0 < 2 ^ Z.of_nat k)%Z) by (apply Z.pow_pos_nonneg; lia).
    assert (Hmk : (0 <= mk)%Z) by (rewrite Hq; apply Z.div_pos; lia).
    rewrite shr_1_nonneg by exact Hmk. cbn [shr_m shr_r shr_s].
    rewrite Nat2Z.inj_succ, Z.pow_succ_r by lia.
    set (p := (2 ^ Z.of_nat k)%Z) in *.
    assert (Hrem : (m mod (2 * p) = m mod p + p * (mk mod 2))%Z).
    { rewrite (Z.mul_comm 2 p), Z.rem_mul_r by lia. rewrite Hq. reflexivity. }
    pose proof (Z.mod_pos_bound m p Hp) as Hb.
    pose proof (Zmod_odd mk) as Hodd.
    rewrite Hrem. split; [| split].
    + rewrite Hq, Z.div_div by lia. rewrite (Z.mul_comm p 2). reflexivity.
    + destruct (Z.odd mk); rewrite Hodd; split; intro H;
        try discriminate; try reflexivity; lia.
    + destruct rk, sk; cbn [orb]; rewrite Hodd;
        destruct (Z.odd mk); split; intro H; try reflexivity;
        try discriminate; try lia.
      all: try (exfalso;
        assert (Hr' : true = true -> (p <= 2 * (m mod p))%Z) by tauto;
        assert (Hs' : true = true -> (m mod p <> 0 /\ 2 * (m mod p) <> p)%Z)
          by tauto;
        try specialize (Hr' eq_refl); try specialize (Hs' eq_refl); lia).
      all: exfalso.
      all: assert (Hnr : ~ (p <= 2 * (m mod p))%Z)
             by (intro Hc; apply Hr in Hc; discriminate).
      all: assert (Hns : ~ (m mod p <> 0 /\ 2 * (m mod p) <> p)%Z)
             by (intro Hc; apply Hs in Hc; discriminate).
      all: lia.
Qed.


Lemma round_shr (m : Z) (k : nat) :
  (0 <= m)%Z ->
  let mrs := Nat.iter k shr_1 (Build_shr_record m false false) in
  round_nearest_even (shr_m mrs) (loc_of_shr_record mrs)
  = round_shift m (Z.of_nat k).
Proof.
  intros Hm mrs. destruct (shr_iter m k Hm) as [Hq [Hr Hs]].
  fold mrs in Hq, Hr, Hs. destruct mrs as [q r s].
  cbn [shr_m shr_r shr_s] in *. unfold round_shift. rewrite <- Hq.
  set (p := (2 ^ Z.of_nat k)%Z) in *.
  destruct r, s; cbn [loc_of_shr_record round_nearest_even].
  - assert (p <= 2 * (m mod p))%Z by (apply Hr; reflexivity).
    assert (m mod p <> 0 /\ 2 * (m mod p) <> p)%Z by (apply Hs; reflexivity).
    destruct (Z.ltb_spec (2 * (m mod p)) p); [lia |].
    destruct (Z.ltb_spec p (2 * (m mod p))); [reflexivity | lia].
  - assert (p <= 2 * (m mod p))%Z by (apply Hr; reflexivity).
    assert (Hns : ~ (m mod p <> 0 /\ 2 * (m mod p) <> p)%Z)
      by (intro Hc; apply Hs in Hc; discriminate).
    destruct (Z.ltb_spec (2 * (m mod p)) p); [lia |].
    destruct (Z.ltb_spec p (2 * (m mod p))); [lia | reflexivity].
  - assert (Hnr : ~ (p <= 2 * (m mod p))%Z)
      by (intro Hc; apply Hr in Hc; discriminate).
    destruct (Z.ltb_spec (2 * (m mod p)) p); [reflexivity | lia].
  - assert (Hnr : ~ (p <= 2 * (m mod p))%Z)
      by (intro Hc; apply Hr in Hc; discriminate).
    destruct (Z.ltb_spec (2 * (m mod p)) p); [reflexivity | lia].
Qed.

Lemma round_shift_range (m k : Z) :
  (0 <= k)%Z -> (0 <= m < 2 ^ (k + 53))%Z ->
  (0 <= round_shift m k <= 2 ^ 53)%Z.
Proof.
  intros Hk [Hlo Hhi]. unfold round_shift.
  assert (Hp : (0 < 2 ^ k)%Z) by (apply Z.pow_pos_nonneg; lia).
  assert (Hq : (0 <= m / 2 ^ k < 2 ^ 53)%Z).
  { split; [apply Z.div_pos; lia |].
    apply Z.div_lt_upper_bound; [lia |].
    rewrite <- Z.pow_add_r by lia. exact Hhi. }
  destruct (2 * (m mod 2 ^ k) <? 2 ^ k)%Z; [lia |].
  destruct (2 ^ k <? 2 * (m mod 2 ^ k))%Z; [lia |].
  destruct (Z.even (m / 2 ^ k)); lia.
Qed.

(** The first normalisation of [binary_round_aux]: [k] bits are shifted
    out, and the rounding that follows is [round_shift]. *)
Lemma shr_fexp_round (m : positive) (e : Z) :
  let k := (fexp64 (Z.pos (digits2_pos m) + e) - e)%Z in
  (0 <= k)%Z ->
  exists mrs,
    shr_fexp prec emax (Z.pos m) e loc_Exact = (mrs, (e + k)%Z) /\
    round_nearest_even (shr_m mrs) (loc_of_shr_record mrs)
    = round_shift (Z.pos m) k.
Proof.
  intros k Hk. unfold shr_fexp. cbn [Zdigits2 shr_record_of_loc].
  rewrite fexp64_eq. fold k. unfold shr.
  destruct k as [| p | p] eqn:Ek; [| | lia].
  - eexists. split; [rewrite Z.add_0_r; reflexivity |].
    exact (round_shr (Z.pos m) 0 (Pos2Z.is_nonneg m)).
  - eexists. split; [reflexivity |].
    rewrite iter_pos_nat.
    rewrite (round_shr (Z.pos m) (Pos.to_nat p) (Pos2Z.is_nonneg m)).
    rewrite positive_nat_Z. reflexivity.
Qed.

Lemma Zdigits2_small (q : Z) :
  (0 <= q < 2 ^ 53)%Z -> (Zdigits2 q <= 53)%Z.
Proof.
  intros [Hlo Hhi]. destruct q as [| p | p]; [simpl; lia | | lia].
  cbn [Zdigits2]. pose proof (digits2_pos_bounds p) as [Hd _].
  destruct (Z.le_gt_cases (Z.pos (digits2_pos p)) 53) as [H | H];
    [exact H |].
  assert (2 ^ 53 <= 2 ^ (Z.pos (digits2_pos p) - 1))%Z
    by (apply Z.pow_le_mono_r; lia).
  lia.
Qed.

(** The second normalisation leaves a mantissa below 2^53 alone. *)
Lemma shr_fexp_fits (q E : Z) :
  (-1074 <= E)%Z -> (0 <= q < 2 ^ 53)%Z ->
  shr_fexp prec emax q E loc_Exact = (Build_shr_record q false false, E).
Proof.
  intros HE Hq. unfold shr_fexp. cbn [shr_record_of_loc].
  rewrite fexp64_eq. pose proof (Zdigits2_small q Hq) as Hd.
  unfold fexp64, shr.
  destruct (Z.max (Zdigits2 q + E - 53) (-1074) - E)%Z eqn:En;
    try reflexivity.
  lia.
Qed.

(** A mantissa rounded up to 2^53 moves to the next binade. *)
Lemma shr_fexp_carry (E : Z) :
  (-1074 <= E)%Z ->
  shr_fexp prec emax (2 ^ 53) E loc_Exact
  = (Build_shr_record (2 ^ 52) false false, (E + 1)%Z).
Proof.
  intro HE. unfold shr_fexp. rewrite fexp64_eq.
  change (Zdigits2 (2 ^ 53)) with 54%Z. unfold fexp64.
  replace (Z.max (54 + E - 53) (-1074) - E)%Z with 1%Z by lia.
  reflexivity.
Qed.

(** Rounding [m * 2^e] with [binary_round_aux], when the mantissa has at
    least the digits of the format (or the exponent is the least one). *)
Theorem binary_round_aux_rounded (s : bool) (m : positive) (e : Z) :
  (0 <= fexp64 (Z.pos (digits2_pos m) + e) - e)%Z ->
  binary_round_aux prec emax s (Z.pos m) e loc_Exact = rounded s m e.
Proof.
  intro Hk. unfold binary_round_aux, rounded.
  destruct (shr_fexp_round m e Hk) as [mrs [Hfirst Hround]].
  rewrite Hfirst, Hround.
  set (k := (fexp64 (Z.pos (digits2_pos m) + e) - e)%Z) in *.
  assert (HE : (-1074 <= e + k)%Z) by (unfold k, fexp64; lia).
  assert (Hrange : (0 <= round_shift (Z.pos m) k <= 2 ^ 53)%Z).
  { apply round_shift_range; [exact Hk |].
    pose proof (digits2_pos_bounds m) as [_ Hd].
    split; [lia |].
    apply Z.lt_le_trans with (1 := Hd).
    apply Z.pow_le_mono_r; [lia |]. unfold k, fexp64. lia. }
  destruct (Z.eq_dec (round_shift (Z.pos m) k) (2 ^ 53)) as [Hc | Hc].
  - rewrite Hc, shr_fexp_carry by exact HE. reflexivity.
  - rewrite shr_fexp_fits by lia. cbn [shr_m].
    destruct (round_shift (Z.pos m) k) as [| p | p] eqn:Eq;
      [reflexivity | | lia].
    destruct (Z.eqb_spec (Z.pos p) (2 ^ 53)); [contradiction | reflexivity].
Qed.

End Shifting.

Section RoundingError.

Open Scope R_scope.

Lemma bpow_pos (e : Z) : 0 < bpow e.
Proof. apply powerRZ_lt. lra. Qed.

Lemma bpow_add (a b : Z) : bpow (a + b) = bpow a * bpow b.
Proof. apply powerRZ_add. lra. Qed.

Lemma bpow_IZR (k : Z) : (0 <= k)%Z -> bpow k = IZR (2 ^ k).
Proof.
  intro Hk. destruct k as [| p | p]; [reflexivity | | lia].
  unfold bpow. change (2 ^ Z.pos p)%Z with (Z.pow_pos 2 p).
  rewrite Zpower_pos_powerRZ. reflexivity.
Qed.




Lemma bpow_lt (a b : Z) : (a < b)%Z -> bpow a < bpow b.
Proof.
  intro H. replace b with (a + (b - a))%Z by lia.
  rewrite bpow_add, (bpow_IZR (b - a)) by lia.
  assert (2 <= IZR (2 ^ (b - a))).
  { apply IZR_le. replace (b - a)%Z with (Z.succ (b - a - 1)) by lia.
    rewrite Z.pow_succ_r by lia.
    assert (0 < 2 ^ (b - a - 1))%Z by (apply Z.pow_pos_nonneg; lia).
    lia. }
  pose proof (bpow_pos a). nra.
Qed.





Section Rounded.

Variables (s : bool) (m : positive) (e : Z).

Let k := (fexp64 (Z.pos (digits2_pos m) + e) - e)%Z.
Let v := IZR (Z.pos m) * bpow e.

Hypothesis Hk : (0 <= k)%Z.




End Rounded.

End RoundingError.

(** ** Operations on binary64 and their values *)

Section Operations.

Open Scope R_scope.

Lemma valid_finite (x : float) (s : bool) (m : positive) (e : Z) :
  Prim2SF x = S754_finite s m e ->
  fexp64 (Z.pos (digits2_pos m) + e) = e /\ (e <= 971)%Z.
Proof.
  intro Hx. pose proof (Prim2SF_valid x) as Hv. rewrite Hx in Hv.
  cbn [SpecFloat.valid_binary] in Hv. unfold bounded, canonical_mantissa in Hv.
  apply andb_true_iff in Hv. destruct Hv as [Hc He].
  apply Z.eqb_eq in Hc. apply Z.leb_le in He.
  rewrite fexp64_eq in Hc. split; [exact Hc | exact He].
Qed.



Lemma signR_sqr (a : bool) : signR a * signR a = 1.
Proof. destruct a; unfold signR; ring. Qed.











End Operations.

(** ** Operations that round nothing *)

Section ExactOperations.

Open Scope float_scope.

Lemma Prim2SF_one : Prim2SF 1 = S754_finite false 4503599627370496 (-52).
Proof. reflexivity. Qed.

Lemma Prim2SF_zero : Prim2SF 0 = S754_zero false.
Proof. reflexivity. Qed.

(** Multiplying by 1.0 changes no float. *)
Lemma mul_one (b : float) : b * 1 = b.
Proof.
  apply Prim2SF_inj. rewrite mul_spec, Prim2SF_one. unfold SF64mul.
  destruct (Prim2SF b) as [s | s | | s m e] eqn:Hb; cbn [SFmul];
    rewrite ?xorb_false_r; try reflexivity.
  destruct (valid_finite b _ _ _ Hb) as [Hc He].
  pose proof (digits2_pos_bounds m) as [Hlo Hhi].
  assert (Hd : Z.pos (digits2_pos (m * 4503599627370496))
               = (Z.pos (digits2_pos m) + 52)%Z).
  { apply digits2_pos_unique. rewrite Pos2Z.inj_mul.
    change (Z.pos 4503599627370496) with (2 ^ 52)%Z.
    replace (Z.pos (digits2_pos m) + 52 - 1)%Z
      with (Z.pos (digits2_pos m) - 1 + 52)%Z by lia.
    rewrite !Z.pow_add_r by lia. lia. }
  assert (Hk : (fexp64 (Z.pos (digits2_pos (m * 4503599627370496))
                        + (e + -52)) - (e + -52) = 52)%Z).
  { rewrite Hd.
    replace (Z.pos (digits2_pos m) + 52 + (e + -52))%Z
      with (Z.pos (digits2_pos m) + e)%Z by lia.
    rewrite Hc. lia. }
  rewrite binary_round_aux_rounded by lia.
  unfold rounded. rewrite Hk.
  assert (Hq : round_shift (Z.pos (m * 4503599627370496)) 52 = Z.pos m).
  { unfold round_shift. rewrite Pos2Z.inj_mul.
    change (Z.pos 4503599627370496) with (2 ^ 52)%Z.
    rewrite Z.div_mul, Z.mod_mul by lia. reflexivity. }
  rewrite Hq.
  assert (Hm : (Z.pos m < 2 ^ 53)%Z).
  { apply Z.lt_le_trans with (1 := Hhi). apply Z.pow_le_mono_r; [lia |].
    unfold fexp64 in Hc. lia. }
  destruct (Z.eqb_spec (Z.pos m) (2 ^ 53)); [lia |].
  replace (e + -52 + 52)%Z with e by lia.
  destruct (Z.leb_spec e 971); [reflexivity | lia].
Qed.

(** A finite float times zero is a zero. *)
Lemma mul_zero (a : float) :
  finite a = true -> exists s, Prim2SF (a * 0) = S754_zero s.
Proof.
  unfold finite. rewrite mul_spec, Prim2SF_zero. unfold SF64mul.
  destruct (Prim2SF a) as [s | s | | s m e]; try discriminate; intros _;
    eexists; reflexivity.
Qed.

Lemma SFeqb_refl (x : spec_float) : x <> S754_nan -> SFeqb x x = true.
Proof.
  intro H. destruct x as [s | s | | s m e]; [| | contradiction |].
  - reflexivity.
  - destruct s; reflexivity.
  - unfold SFeqb, SFcompare. rewrite Z.compare_refl, Pos.compare_cont_refl.
    destruct s; reflexivity.
Qed.

(** Adding a zero to a number gives a float equal to it. *)
Lemma add_zero (z b : float) (s : bool) :
  Prim2SF z = S754_zero s -> (b =? b) = true -> (z + b =? b) = true.
Proof.
  intros Hz Hb. rewrite eqb_spec in *. rewrite add_spec, Hz. unfold SF64add.
  destruct (Prim2SF b) as [sb | sb | | sb mb eb] eqn:Eb; cbn [SFadd].
  - destruct s, sb; reflexivity.
  - exact Hb.
  - discriminate.
  - exact Hb.
Qed.

(** The blend at weight 1: the end coordinate drops out. *)
Lemma mix_one (e b : float) :
  finite e = true -> (b =? b) = true ->
  (e * (1 - 1) + b * 1 =? b) = true.
Proof.
  intros He Hb. rewrite mul_one. change (1 - 1) with 0.
  destruct (mul_zero e He) as [s Hs].
  exact (add_zero (e * 0) b s Hs Hb).
Qed.

Lemma finite_eqb_refl (b : float) : finite b = true -> (b =? b) = true.
Proof.
  unfold finite. rewrite eqb_spec. intro H. apply SFeqb_refl.
  destruct (Prim2SF b); discriminate.
Qed.

(** *** What an operation returns on an operand that is no finite number *)

Lemma finite_sub_inv (a b : float) :
  finite (a - b) = true -> finite a = true /\ finite b = true.
Proof.
  unfold finite. rewrite sub_spec. unfold SF64sub.
  destruct (Prim2SF a) as [sa | sa | | sa ma ea],
           (Prim2SF b) as [sb | sb | | sb mb eb];
    cbn [SFsub is_finite_SF]; try (intros _; split; reflexivity);
    try discriminate; destruct sa, sb; discriminate.
Qed.

Lemma finite_add_inv (a b : float) :
  finite (a + b) = true -> finite a = true /\ finite b = true.
Proof.
  unfold finite. rewrite add_spec. unfold SF64add.
  destruct (Prim2SF a) as [sa | sa | | sa ma ea],
           (Prim2SF b) as [sb | sb | | sb mb eb];
    cbn [SFadd is_finite_SF]; try (intros _; split; reflexivity);
    try discriminate; destruct sa, sb; discriminate.
Qed.

Lemma finite_mul_inv (a b : float) :
  finite (a * b) = true -> finite a = true /\ finite b = true.
Proof.
  unfold finite. rewrite mul_spec. unfold SF64mul.
  destruct (Prim2SF a) as [sa | sa | | sa ma ea],
           (Prim2SF b) as [sb | sb | | sb mb eb];
    cbn [SFmul is_finite_SF]; try (intros _; split; reflexivity);
    discriminate.
Qed.

Lemma binary_round_aux_sign (s : bool) (m e : Z) (l : location) :
  binary_round_aux prec emax s m e l <> S754_infinity (negb s).
Proof.
  unfold binary_round_aux.
  destruct (shr_fexp prec emax m e l) as [mrs' e'].
  destruct (shr_fexp prec emax _ e' loc_Exact) as [mrs'' e''].
  destruct (shr_m mrs''); try discriminate.
  destruct (e'' <=? emax - prec)%Z; [discriminate |].
  destruct s; discriminate.
Qed.

(** A square root is a finite number, NaN or plus infinity; it is finite
    only on a finite number. *)
Lemma sqrt_range (a : float) :
  Prim2SF (PrimFloat.sqrt a) <> S754_infinity true /\
  (finite (PrimFloat.sqrt a) = true -> finite a = true).
Proof.
  unfold finite. rewrite sqrt_spec. unfold SF64sqrt.
  destruct (Prim2SF a) as [sa | sa | | sa ma ea]; cbn [SFsqrt].
  - split; [discriminate | reflexivity].
  - destruct sa; split; discriminate.
  - split; discriminate.
  - split; [| reflexivity].
    destruct sa; [discriminate |].
    destruct (SFsqrt_core_binary prec emax (Z.pos ma) ea) as [[mz ez] lz].
    exact (binary_round_aux_sign false mz ez lz).
Qed.

(** [np.maximum] is finite only on finite numbers, minus infinity apart. *)
Lemma np_maximum_finite_inv (a b : float) :
  Prim2SF a <> S754_infinity true -> Prim2SF b <> S754_infinity true ->
  finite (Motion.np_maximum a b) = true ->
  finite a = true /\ finite b = true.
Proof.
  unfold Motion.np_maximum, finite. cbn [fgtb feqb float_scalar].
  rewrite ltb_spec, !eqb_spec.
  destruct (Prim2SF a) as [sa | sa | | sa ma ea] eqn:Ha,
           (Prim2SF b) as [sb | sb | | sb mb eb] eqn:Hb;
    intros Hna Hnb; try (intros _; split; reflexivity);
    try (destruct sa; [congruence |]);
    try (destruct sb; [congruence |]);
    rewrite ?SFeqb_refl by discriminate;
    cbn; rewrite ?Ha, ?Hb; cbn; try discriminate.
  all: try (destruct sa; cbn; rewrite ?Ha, ?Hb; cbn; discriminate).
  all: try (destruct sb; cbn; rewrite ?Ha, ?Hb; cbn; discriminate).
Qed.

End ExactOperations.

(** ** Loop closure on binary64 *)

Section LoopBinary64.

Open Scope float_scope.

(** For each transition length the clamp allows, the eased weights start
    above zero and end at exactly 1. *)
Lemma loop_weights_ends (n : Z) :
  (15 <= n <= 60)%Z ->
  exists s ws, Motion.loop_weights n = s :: ws /\
               (0 <? s) = true /\ last (s :: ws) 0 = 1.
Proof.
  intro Hn.
  pose proof (range_down_forallb
                (fun n =>
                   match Motion.loop_weights (F := float) n with
                   | s :: ws =>
                       (0 <? s) && PrimFloat.Leibniz.eqb (last (s :: ws) 0) 1
                   | [] => false
                   end) 60 14 n) as H.
  cbv beta in H.
  destruct (Motion.loop_weights n) as [| s ws]; [| exists s, ws].
  - discriminate H; [vm_compute; reflexivity | lia].
  - split; [reflexivity |].
    assert (Hb : (0 <? s) && PrimFloat.Leibniz.eqb (last (s :: ws) 0) 1
                 = true) by (apply H; [vm_compute; reflexivity | lia]).
    apply andb_true_iff in Hb. destruct Hb as [Hs Hl].
    split; [exact Hs |]. apply FloatAxioms.Leibniz.eqb_spec. exact Hl.
Qed.

Lemma jnorm_finite_inv (j : joint float) :
  finite (Motion.jnorm j) = true -> finite_joint j = true.
Proof.
  unfold Motion.jnorm, finite_joint. cbn [fsqrt fadd fmul float_scalar].
  intro H. apply (proj2 (sqrt_range _)) in H.
  apply finite_add_inv in H. destruct H as [H Hz].
  apply finite_add_inv in H. destruct H as [Hx Hy].
  apply finite_mul_inv in Hx. apply finite_mul_inv in Hy.
  apply finite_mul_inv in Hz.
  rewrite (proj1 Hx), (proj1 Hy), (proj1 Hz). reflexivity.
Qed.

Lemma jsub_finite_inv (a b : joint float) :
  finite_joint (Motion.jsub a b) = true ->
  finite_joint a = true /\ finite_joint b = true.
Proof.
  unfold Motion.jsub, finite_joint. cbn [jx jy jz fsub float_scalar].
  intro H. apply andb_true_iff in H. destruct H as [H Hz].
  apply andb_true_iff in H. destruct H as [Hx Hy].
  apply finite_sub_inv in Hx. apply finite_sub_inv in Hy.
  apply finite_sub_inv in Hz.
  destruct Hx as [-> ->], Hy as [-> ->], Hz as [-> ->]. split; reflexivity.
Qed.

Lemma np_maximum_choice (a b : float) :
  Motion.np_maximum a b = a \/ Motion.np_maximum a b = b.
Proof.
  unfold Motion.np_maximum.
  destruct ((fgtb a b || feqb a b) || negb (feqb a a)); [left | right];
    reflexivity.
Qed.

(** The maximum of norms is finite only when every norm is. *)
Lemma fold_maximum_finite_inv (rest : list float) (a : float) :
  Forall (fun x => Prim2SF x <> S754_infinity true) (a :: rest) ->
  finite (fold_left Motion.np_maximum rest a) = true ->
  Forall (fun x => finite x = true) (a :: rest).
Proof.
  revert a. induction rest as [| b rest IH]; intros a Hall Hfin.
  - constructor; [exact Hfin | constructor].
  - cbn [fold_left] in Hfin.
    inversion Hall as [| ? ? Ha Hrest]; subst.
    inversion Hrest as [| ? ? Hb Hrest']; subst.
    assert (Hm : Prim2SF (Motion.np_maximum a b) <> S754_infinity true).
    { destruct (np_maximum_choice a b) as [-> | ->]; assumption. }
    assert (Hall' : Forall (fun x => Prim2SF x <> S754_infinity true)
                      (Motion.np_maximum a b :: rest))
      by (constructor; assumption).
    specialize (IH (Motion.np_maximum a b) Hall' Hfin).
    inversion IH as [| ? ? Hab Hfr]; subst.
    destruct (np_maximum_finite_inv a b Ha Hb Hab) as [Fa Fb].
    constructor; [exact Fa |]. constructor; [exact Fb | exact Hfr].
Qed.

Lemma jnorm_not_minus_infinity (j : joint float) :
  Prim2SF (Motion.jnorm j) <> S754_infinity true.
Proof.
  unfold Motion.jnorm. cbn [fsqrt float_scalar]. apply sqrt_range.
Qed.

Lemma float_to_int_finite (x : float) (k : Z) :
  float_to_int x = Ok k -> finite x = true.
Proof.
  unfold float_to_int, finite.
  destruct (Prim2SF x); try discriminate; reflexivity.
Qed.

(** When the distance between two poses of one size converts to an
    integer, every coordinate of both is a finite number. *)
Lemma max_dist_finite_poses (p q : pose float) (d : float) (k : Z) :
  length p = length q ->
  Motion.np_max (map Motion.jnorm (Motion.zip_with Motion.jsub p q)) = Ok d ->
  float_to_int (d * 40) = Ok k ->
  Forall (fun j => finite_joint j = true) p /\
  Forall (fun j => finite_joint j = true) q.
Proof.
  intros Hlen Hmax Hk.
  apply float_to_int_finite, finite_mul_inv in Hk. destruct Hk as [Hd _].
  unfold Motion.np_max in Hmax.
  destruct (map Motion.jnorm (Motion.zip_with Motion.jsub p q))
    as [| a rest] eqn:Hnorms; [discriminate |].
  injection Hmax as <-.
  assert (Hall : Forall (fun x => finite x = true)
                   (map Motion.jnorm (Motion.zip_with Motion.jsub p q))).
  { rewrite Hnorms. apply fold_maximum_finite_inv; [| exact Hd].
    rewrite <- Hnorms. apply Forall_map, Forall_forall.
    intros j _. apply jnorm_not_minus_infinity. }
  clear Hnorms Hd a rest. apply Forall_map in Hall.
  revert q Hlen Hall. induction p as [| x p IH]; intros [| y q] Hlen Hall;
    try discriminate.
  - split; constructor.
  - cbn [Motion.zip_with] in Hall.
    inversion Hall as [| ? ? Hxy Hrest]; subst.
    apply jnorm_finite_inv, jsub_finite_inv in Hxy. destruct Hxy as [Fx Fy].
    destruct (IH q) as [Fp Fq]; [simpl in Hlen; lia | exact Hrest |].
    split; constructor; assumption.
Qed.

Lemma blend_joint_one (e b : joint float) :
  finite_joint e = true -> finite_joint b = true ->
  same_joint (Motion.blend_joint 1 e b) b.
Proof.
  unfold finite_joint, same_joint, Motion.blend_joint.
  cbn [jx jy jz fadd fmul fsub of_int float_scalar].
  change (float_of_Z 1) with 1.
  intros He Hb.
  apply andb_true_iff in He. destruct He as [He Hez].
  apply andb_true_iff in He. destruct He as [Hex Hey].
  apply andb_true_iff in Hb. destruct Hb as [Hb Hbz].
  apply andb_true_iff in Hb. destruct Hb as [Hbx Hby].
  repeat split; apply mix_one; try assumption; apply finite_eqb_refl;
    assumption.
Qed.

Lemma blend_pose_one (e b : pose float) :
  length e = length b ->
  Forall (fun j => finite_joint j = true) e ->
  Forall (fun j => finite_joint j = true) b ->
  same_pose (Motion.blend_pose e b 1) b.
Proof.
  unfold same_pose, Motion.blend_pose. revert b.
  induction e as [| x e IH]; intros [| y b] Hlen He Hb; try discriminate.
  - constructor.
  - cbn [Motion.zip_with].
    inversion He; subst. inversion Hb; subst.
    constructor; [apply blend_joint_one; assumption |].
    apply IH; [simpl in Hlen; lia | assumption | assumption].
Qed.

(** C6 (amended), on binary64.  The loop closer raises exactly when
    [int(max_dist * 40)] does.  Where it returns, it appends the blends of
    the end and start poses at the eased weights; the first weight is
    strictly positive and the last is exactly 1, and the last appended frame
    is the start pose, every coordinate comparing equal ([==]).  The first
    appended frame is the blend at the first weight; it can equal the last
    original frame. *)
Theorem loop_frames_endpoints (data : trajectory float)
    (start_pose end_pose : pose float) :
  rectangular data -> (forall p, In p data -> p <> []) ->
  Motion.first_frame data = Ok start_pose ->
  Motion.last_frame data = Ok end_pose ->
  exists d, Motion.max_dist data = Ok d /\
    (forall e, to_int (fmul d (of_int 40)) = Raise e ->
       Motion.append_loop_frames data = Raise e) /\
    forall k, to_int (fmul d (of_int 40)) = Ok k ->
      exists s ws,
        Motion.loop_weights (Z.max 15 (Z.min 60 k)) = s :: ws /\
        Motion.append_loop_frames data
          = Ok (data
                ++ map (Motion.blend_pose end_pose start_pose) (s :: ws)) /\
        (0 <? s) = true /\
        last (s :: ws) 0 = 1 /\
        same_pose
          (last (map (Motion.blend_pose end_pose start_pose) (s :: ws)) [])
          start_pose.
Proof.
  intros Hrect Hposes Hfirst Hlast.
  destruct data as [| p rest]; [discriminate |].
  injection Hfirst as <-. injection Hlast as <-.
  assert (Hlen : length (last rest p) = length p).
  { apply Hrect; [apply last_frame_in | left; reflexivity]. }
  destruct (max_dist_defined (p :: rest)) as [d Hd];
    [discriminate | exact Hposes |].
  exists d. split; [exact Hd |]. split.
  { intros e He.
    unfold Motion.append_loop_frames, Motion.loop_frames,
      Motion.transition_len.
    cbn [Motion.first_frame Motion.last_frame bind].
    rewrite Hd. cbn [bind]. rewrite He. reflexivity. }
  intros k Hk.
  destruct (loop_weights_ends (Z.max 15 (Z.min 60 k)))
    as [s [ws [Hws [Hs Hone]]]]; [lia |].
  exists s, ws. split; [exact Hws |].
  split; [| split; [exact Hs | split; [exact Hone |]]].
  - unfold Motion.append_loop_frames, Motion.loop_frames,
      Motion.transition_len.
    cbn [Motion.first_frame Motion.last_frame bind].
    rewrite Hd. cbn [bind]. rewrite Hk. cbn [bind].
    unfold Motion.LOOP_MIN_FRAMES, Motion.LOOP_MAX_FRAMES.
    rewrite Hws. reflexivity.
  - rewrite (last_map_cons _ s ws 0), Hone.
    unfold Motion.max_dist in Hd.
    cbn [Motion.first_frame Motion.last_frame bind] in Hd.
    destruct (max_dist_finite_poses p (last rest p) d k) as [Fp Fl];
      [symmetry; exact Hlen | exact Hd | exact Hk |].
    apply blend_pose_one; assumption.
Qed.

End LoopBinary64.

Lemma loop_frames_endpoints_witness :
  exists s ws,
    Motion.loop_weights 19 = s :: ws /\
    Motion.append_loop_frames Samples.reach_clip
      = Ok (Samples.reach_clip
            ++ map (Motion.blend_pose (Samples.pose_at 0.49%float)
                                      (Samples.pose_at 0%float)) (s :: ws)) /\
    (0 <? s)%float = true /\
    last (s :: ws) 0%float = 1%float /\
    same_pose
      (last (map (Motion.blend_pose (Samples.pose_at 0.49%float)
                                    (Samples.pose_at 0%float)) (s :: ws)) [])
      (Samples.pose_at 0%float).
Proof.
  destruct (loop_frames_endpoints Samples.reach_clip
              (Samples.pose_at 0%float) (Samples.pose_at 0.49%float))
    as [d [Hd [_ Hk]]].
  - intros p q [<- | [<- | []]] [<- | [<- | []]]; reflexivity.
  - intros p [<- | [<- | []]]; discriminate.
  - reflexivity.
  - reflexivity.
  - vm_compute in Hd. injection Hd as <-.
    apply (Hk 19%Z). vm_compute. reflexivity.
Defined.

(** X7: in binary64, for each of the transition lengths 15 to 60, the first
    eased weight is strictly positive and the last is exactly 1. *)
Lemma loop_weights_binary64 :
  forallb
    (fun n =>
       match Motion.loop_weights (F := float) n with
       | s :: ws =>
           PrimFloat.ltb 0%float s
           && PrimFloat.Leibniz.eqb (last (s :: ws) 0%float) 1%float
       | [] => false
       end)
    (Motion.range_down 60 14) = true.
Proof.
  vm_compute. reflexivity.
Qed.

(** C6 as stated fails.  On a motionless clip, whose start and end poses
    coincide, every appended frame, the first included, equals the last
    original frame.  And with the start pose at x = 1e16 + 2 and the end
    pose at x = 1e16, which differ, the first appended frame is the last
    original frame all the same: the blend rounds to it. *)
Lemma loop_frames_motionless :
  (Motion.append_loop_frames Samples.short_clip
     = Ok (Samples.short_clip ++ repeat (Samples.pose_at 0%float) 15) /\
   Motion.last_frame Samples.short_clip = Ok (Samples.pose_at 0%float)) /\
  (Motion.first_frame Samples.far_clip
     = Ok [Samples.at_x 10000000000000002%float] /\
   Motion.last_frame Samples.far_clip
     = Ok [Samples.at_x 10000000000000000%float] /\
   (10000000000000002 =? 10000000000000000)%float = false /\
   match Motion.append_loop_frames Samples.far_clip with
   | Ok out => nth_error out 2
   | Raise _ => None
   end = Some [Samples.at_x 10000000000000000%float]).
Proof.
  repeat split; vm_compute; reflexivity.
Qed.

(** ** The yaw correction on binary64 *)

Section YawError.

Open Scope R_scope.



















End YawError.

Section YawBinary64.

Open Scope float_scope.





End YawBinary64.

(** Where the reals and the sample values meet. *)
Section SampleValues.

Open Scope R_scope.




End SampleValues.



(** ** binary64 comparisons against zero *)

Section FloatOrder.

Open Scope float_scope.

(** [0 < a] and [a < b] give [0 < b]. *)
Lemma ltb_zero_trans (a b : float) :
  (0 <? a) = true -> (a <? b) = true -> (0 <? b) = true.
Proof.
  rewrite !ltb_spec, Prim2SF_zero. unfold SFltb.
  destruct (Prim2SF a) as [sa | sa | | sa ma ea],
           (Prim2SF b) as [sb | sb | | sb mb eb];
    simpl; try discriminate; try reflexivity;
    destruct sa; try discriminate; destruct sb; try discriminate;
    try reflexivity.
Qed.

(** [a < 0] excludes [0 < a]. *)
Lemma ltb_zero_asym (a : float) : (a <? 0) = true -> (0 <? a) = false.
Proof.
  rewrite !ltb_spec, Prim2SF_zero. unfold SFltb.
  destruct (Prim2SF a) as [sa | sa | | sa ma ea];
    simpl; try discriminate; destruct sa; try discriminate; reflexivity.
Qed.

(** [0 < a] excludes [a < 0]. *)
Lemma ltb_zero_pos (a : float) : (0 <? a) = true -> (a <? 0) = false.
Proof.
  rewrite !ltb_spec, Prim2SF_zero. unfold SFltb.
  destruct (Prim2SF a) as [sa | sa | | sa ma ea];
    simpl; try discriminate; destruct sa; try discriminate; reflexivity.
Qed.

End FloatOrder.

(** ** The matcher *)

Section MatchFacts.

Open Scope float_scope.

Lemma find_match_from_best_ok (embedding : list float)
    (items : FaceServer.store) (best_id : option string) (best_sim : float)
    (found : option string * float) :
  FaceServer.best_ok (best_id, best_sim) ->
  FaceServer.find_match_from embedding items best_id best_sim = Ok found ->
  FaceServer.best_ok found.
Proof.
  revert best_id best_sim.
  induction items as [| [vid data] rest IH]; intros best_id best_sim Hinv Hrun.
  - simpl in Hrun. injection Hrun as <-. exact Hinv.
  - simpl in Hrun.
    destruct (FaceServer.similarity embedding data) as [sim | e];
      [| discriminate].
    cbn [bind] in Hrun.
    destruct (best_sim <? sim) eqn:Hlt.
    + apply (IH (Some vid) sim); [| exact Hrun].
      right. exists vid. split; [reflexivity |]. simpl.
      destruct Hinv as [[_ Hz] | [v [_ Hpos]]]; simpl in *.
      * subst best_sim. exact Hlt.
      * apply (ltb_zero_trans best_sim sim); assumption.
    + apply (IH best_id best_sim); assumption.
Qed.

Lemma find_match_from_all_negative (embedding : list float)
    (items : FaceServer.store) :
  (forall vid data, In (vid, data) items ->
     exists sim, FaceServer.similarity embedding data = Ok sim /\
                 (sim <? 0) = true) ->
  FaceServer.find_match_from embedding items None 0 = Ok (None, 0).
Proof.
  induction items as [| [vid data] rest IH]; intro Hneg; [reflexivity |].
  simpl.
  destruct (Hneg vid data) as [sim [Hsim Hlt]]; [left; reflexivity |].
  rewrite Hsim. cbn [bind].
  rewrite (ltb_zero_asym sim Hlt).
  apply IH. intros v d Hin. apply (Hneg v d). right. exact Hin.
Qed.

(** C2: on an empty store the matcher returns (None, 0.0); when every stored
    embedding has a negative similarity to the query it returns (None, 0.0);
    and a score it returns is never negative. *)
Theorem find_match_zero_init (face_db : FaceServer.store)
    (embedding : list float) :
  FaceServer.find_match [] embedding = Ok (None, 0) /\
  ((forall vid data, In (vid, data) face_db ->
      exists sim, FaceServer.similarity embedding data = Ok sim /\
                  (sim <? 0) = true) ->
   FaceServer.find_match face_db embedding = Ok (None, 0)) /\
  (forall best_id best_sim,
     FaceServer.find_match face_db embedding = Ok (best_id, best_sim) ->
     (best_sim <? 0) = false /\ FaceServer.best_ok (best_id, best_sim)).
Proof.
  split; [reflexivity |]. split.
  - apply find_match_from_all_negative.
  - intros best_id best_sim Hrun.
    assert (Hok : FaceServer.best_ok (best_id, best_sim)).
    { apply (find_match_from_best_ok embedding face_db None 0);
        [left; split; reflexivity | exact Hrun]. }
    split; [| exact Hok].
    destruct Hok as [[_ Hz] | [v [_ Hpos]]]; simpl in *.
    + subst best_sim. reflexivity.
    + apply ltb_zero_pos. exact Hpos.
Qed.

End MatchFacts.

(** ** The batch driver *)

Section BatchFacts.

Context {env : Batch.Env}.

Lemma renumber_length (first : Z) (tasks : list Batch.task) :
  length (Batch.renumber first tasks) = length tasks.
Proof.
  revert first. induction tasks as [| t rest IH]; intro first; simpl;
    [reflexivity | rewrite IH; reflexivity].
Qed.

Lemma renumber_index (first : Z) (tasks : list Batch.task) :
  map Batch.index (Batch.renumber first tasks)
  = map (fun k => (first + Z.of_nat k)%Z) (seq 0 (length tasks)).
Proof.
  revert first. induction tasks as [| t rest IH]; intro first; simpl;
    [reflexivity |].
  f_equal; [lia |].
  rewrite IH, <- seq_shift, map_map. apply map_ext. intro k. lia.
Qed.

(** What one iteration does to the state, by the line it prints. *)
Lemma loop_body_cases (st : Batch.loop_state) (t : Batch.task) :
  exists e,
    Batch.log (Batch.loop_body st t) = Batch.log st ++ [e] /\
    Batch.manifest (Batch.loop_body st t)
      = Batch.manifest st
        ++ Batch.renumber (Batch.new_index st)
             (Batch.converted_tasks [t] [e]) /\
    Batch.new_index (Batch.loop_body st t)
      = (Batch.new_index st
         + Z.of_nat (length (Batch.converted_tasks [t] [e])))%Z /\
    Batch.success_count (Batch.loop_body st t)
      = (Batch.success_count st
         + Z.of_nat (length (Batch.converted_tasks [t] [e])))%Z.
Proof.
  unfold Batch.loop_body.
  destruct (Batch.path_exists _); cbn [negb].
  - destruct (Batch.convert_single_file _ _ _).
    + eexists. split; [reflexivity |]. cbn. repeat split; reflexivity.
    + eexists. split; [reflexivity |]. cbn.
      rewrite app_nil_r, !Z.add_0_r. repeat split; reflexivity.
  - eexists. split; [reflexivity |]. cbn.
    rewrite app_nil_r, !Z.add_0_r. repeat split; reflexivity.
Qed.

Lemma converted_tasks_cons (t : Batch.task) (rest : list Batch.task)
    (e : Batch.event) (events : list Batch.event) :
  Batch.converted_tasks (t :: rest) (e :: events)
  = Batch.converted_tasks [t] [e] ++ Batch.converted_tasks rest events.
Proof.
  unfold Batch.converted_tasks. cbn.
  destruct (Batch.converted e); reflexivity.
Qed.

Lemma renumber_app (first : Z) (a b : list Batch.task) :
  Batch.renumber first (a ++ b)
  = Batch.renumber first a
    ++ Batch.renumber (first + Z.of_nat (length a)) b.
Proof.
  revert first. induction a as [| t a IH]; intro first.
  - simpl. rewrite Z.add_0_r. reflexivity.
  - cbn [app Batch.renumber length]. rewrite IH.
    replace (first + 1 + Z.of_nat (length a))%Z
      with (first + Z.of_nat (S (length a)))%Z by lia.
    reflexivity.
Qed.

(** The loop from any state: one printed line per task, and the rows of the
    converted tasks appended with consecutive indices. *)
Lemma fold_loop_body (tasks : list Batch.task) (st : Batch.loop_state) :
  exists events,
    length events = length tasks /\
    Batch.log (fold_left Batch.loop_body tasks st) = Batch.log st ++ events /\
    Batch.manifest (fold_left Batch.loop_body tasks st)
      = Batch.manifest st
        ++ Batch.renumber (Batch.new_index st)
             (Batch.converted_tasks tasks events) /\
    Batch.new_index (fold_left Batch.loop_body tasks st)
      = (Batch.new_index st
         + Z.of_nat (length (Batch.converted_tasks tasks events)))%Z /\
    Batch.success_count (fold_left Batch.loop_body tasks st)
      = (Batch.success_count st
         + Z.of_nat (length (Batch.converted_tasks tasks events)))%Z.
Proof.
  revert st. induction tasks as [| t rest IH]; intro st.
  - exists []. cbn. rewrite !app_nil_r, !Z.add_0_r. repeat split; reflexivity.
  - cbn [fold_left].
    destruct (loop_body_cases st t) as [e [Hlog [Hman [Hidx Hcnt]]]].
    destruct (IH (Batch.loop_body st t))
      as [events [Hlen [Hlog' [Hman' [Hidx' Hcnt']]]]].
    exists (e :: events).
    rewrite converted_tasks_cons, renumber_app, length_app.
    split; [simpl; lia |]. split; [| split; [| split]].
    + rewrite Hlog', Hlog, <- app_assoc. reflexivity.
    + rewrite Hman', Hman, Hidx, <- app_assoc. reflexivity.
    + rewrite Hidx', Hidx. lia.
    + rewrite Hcnt', Hcnt. lia.
Qed.

(** Two states that differ only in the log stay so. *)
Lemma fold_loop_body_log_free (tasks : list Batch.task)
    (st st' : Batch.loop_state) :
  Batch.new_index st = Batch.new_index st' ->
  Batch.success_count st = Batch.success_count st' ->
  Batch.manifest st = Batch.manifest st' ->
  Batch.manifest (fold_left Batch.loop_body tasks st)
  = Batch.manifest (fold_left Batch.loop_body tasks st').
Proof.
  revert st st'. induction tasks as [| t rest IH]; intros st st' Hi Hc Hm.
  - exact Hm.
  - cbn [fold_left]. apply IH; unfold Batch.loop_body; rewrite Hi, Hc, Hm;
      destruct (Batch.path_exists _); cbn [negb]; try reflexivity;
      destruct (Batch.convert_single_file _ _ _); reflexivity.
Qed.

Lemma loop_body_skip (st : Batch.loop_state) (t : Batch.task) :
  Batch.converts_at (Batch.new_index st) t = false ->
  Batch.new_index (Batch.loop_body st t) = Batch.new_index st /\
  Batch.success_count (Batch.loop_body st t) = Batch.success_count st /\
  Batch.manifest (Batch.loop_body st t) = Batch.manifest st.
Proof.
  unfold Batch.converts_at, Batch.loop_body. intro H.
  destruct (Batch.path_exists _); cbn [negb andb] in *.
  - rewrite H. repeat split; reflexivity.
  - repeat split; reflexivity.
Qed.

Lemma loop_body_success (st : Batch.loop_state) (t : Batch.task) :
  Batch.converts_at (Batch.new_index st) t = true ->
  Batch.new_index (Batch.loop_body st t) = (Batch.new_index st + 1)%Z /\
  Batch.success_count (Batch.loop_body st t)
    = (Batch.success_count st + 1)%Z /\
  Batch.manifest (Batch.loop_body st t)
    = Batch.manifest st ++ Batch.renumber (Batch.new_index st) [t] /\
  exists e, Batch.log (Batch.loop_body st t) = Batch.log st ++ [e] /\
            Batch.converted e = true.
Proof.
  unfold Batch.converts_at, Batch.loop_body. intro H.
  apply andb_true_iff in H. destruct H as [Hexists Hconv].
  rewrite Hexists. cbn [negb]. rewrite Hconv.
  repeat split. eexists. split; reflexivity.
Qed.

Lemma loop_body_skip_log (st : Batch.loop_state) (t : Batch.task) :
  Batch.converts_at (Batch.new_index st) t = false ->
  exists e, Batch.log (Batch.loop_body st t) = Batch.log st ++ [e] /\
            Batch.converted e = false.
Proof.
  unfold Batch.converts_at, Batch.loop_body. intro H.
  destruct (Batch.path_exists _); cbn [negb andb] in *.
  - rewrite H. eexists. split; reflexivity.
  - eexists. split; reflexivity.
Qed.

(** The loop from any state, against the items that convert: their rows are
    appended under consecutive numbers from the free one, both counters
    advance by their number, and the lines printed report exactly them. *)
Lemma fold_loop_body_successes (tasks : list Batch.task)
    (st : Batch.loop_state) :
  Batch.manifest (fold_left Batch.loop_body tasks st)
    = Batch.manifest st
      ++ Batch.renumber (Batch.new_index st)
           (Batch.successes (Batch.new_index st) tasks) /\
  Batch.new_index (fold_left Batch.loop_body tasks st)
    = (Batch.new_index st
       + Z.of_nat (length (Batch.successes (Batch.new_index st) tasks)))%Z /\
  Batch.success_count (fold_left Batch.loop_body tasks st)
    = (Batch.success_count st
       + Z.of_nat (length (Batch.successes (Batch.new_index st) tasks)))%Z /\
  exists events,
    Batch.log (fold_left Batch.loop_body tasks st) = Batch.log st ++ events /\
    length events = length tasks /\
    Batch.converted_tasks tasks events
      = Batch.successes (Batch.new_index st) tasks.
Proof.
  revert st. induction tasks as [| t rest IH]; intro st.
  - cbn. rewrite app_nil_r, !Z.add_0_r. repeat split.
    exists []. rewrite app_nil_r. repeat split.
  - cbn [fold_left Batch.successes].
    destruct (IH (Batch.loop_body st t))
      as [Hman [Hidx [Hcnt [events [Hlog [Hlen Hconv]]]]]].
    destruct (Batch.converts_at (Batch.new_index st) t) eqn:Hat.
    + destruct (loop_body_success st t Hat)
        as [Hi [Hc [Hm [e [Hl He]]]]].
      rewrite Hi in Hman, Hidx, Hcnt, Hconv.
      split; [| split; [| split]].
      * rewrite Hman, Hm, <- app_assoc. reflexivity.
      * rewrite Hidx. cbn [length]. lia.
      * rewrite Hcnt, Hc. cbn [length]. lia.
      * exists (e :: events). split; [| split].
        -- rewrite Hlog, Hl, <- app_assoc. reflexivity.
        -- simpl. rewrite Hlen. reflexivity.
        -- rewrite converted_tasks_cons, Hconv.
           unfold Batch.converted_tasks. cbn. rewrite He. reflexivity.
    + destruct (loop_body_skip st t Hat) as [Hi [Hc Hm]].
      destruct (loop_body_skip_log st t Hat) as [e [Hl He]].
      rewrite Hi in Hman, Hidx, Hcnt, Hconv.
      split; [| split; [| split]].
      * rewrite Hman, Hm. reflexivity.
      * exact Hidx.
      * rewrite Hcnt, Hc. reflexivity.
      * exists (e :: events). split; [| split].
        -- rewrite Hlog, Hl, <- app_assoc. reflexivity.
        -- simpl. rewrite Hlen. reflexivity.
        -- rewrite converted_tasks_cons, Hconv.
           unfold Batch.converted_tasks. cbn. rewrite He. reflexivity.
Qed.

(** Every row the loop adds belongs to an item that converts at its turn. *)
Lemma renumber_successes_origin (tasks : list Batch.task)
    (st : Batch.loop_state) (r : Batch.clean_row) :
  In r (Batch.renumber (Batch.new_index st)
          (Batch.successes (Batch.new_index st) tasks)) ->
  exists before t after,
    tasks = before ++ t :: after /\
    Batch.converts_at
      (Batch.new_index (fold_left Batch.loop_body before st)) t = true /\
    [r] = Batch.renumber
            (Batch.new_index (fold_left Batch.loop_body before st)) [t].
Proof.
  revert st. induction tasks as [| t rest IH]; intros st Hin;
    [contradiction |].
  cbn [Batch.successes] in Hin.
  destruct (Batch.converts_at (Batch.new_index st) t) eqn:Hat.
  - cbn [Batch.renumber] in Hin. destruct Hin as [Hr | Hin].
    + exists [], t, rest. cbn [fold_left app Batch.renumber].
      rewrite Hr. repeat split. exact Hat.
    + destruct (loop_body_success st t Hat) as [Hi _].
      rewrite <- Hi in Hin.
      destruct (IH _ Hin) as [before [t' [after [-> [Hconv Hrow]]]]].
      exists (t :: before), t', after. repeat split; assumption.
  - destruct (loop_body_skip st t Hat) as [Hi _].
    rewrite <- Hi in Hin.
    destruct (IH _ Hin) as [before [t' [after [-> [Hconv Hrow]]]]].
    exists (t :: before), t', after. repeat split; assumption.
Qed.

(** C7: the output manifest holds exactly the items that convert (source
    file present and conversion succeeding under the number free at their
    turn), in input order, numbered 1, 2, ... without gaps.  The loop prints
    one line per task and reports the same items converted; both counters
    agree with the manifest.  An item that converts has its row in the
    manifest right after the rows of the items before it, under the free
    number; an item that does not (missing source or failed conversion)
    leaves the manifest as if it had not been in the input, so the next
    success takes its number; and every row comes from an item that
    converts. *)
Theorem conversion_loop_manifest (tasks : list Batch.task) :
  let st := Batch.conversion_loop tasks in
  length (Batch.log st) = length tasks /\
  Batch.manifest st = Batch.renumber 1 (Batch.successes 1 tasks) /\
  Batch.converted_tasks tasks (Batch.log st) = Batch.successes 1 tasks /\
  Batch.manifest st
    = Batch.renumber 1 (Batch.converted_tasks tasks (Batch.log st)) /\
  map Batch.index (Batch.manifest st)
    = map Z.of_nat (seq 1 (length (Batch.manifest st))) /\
  Batch.new_index st = (1 + Z.of_nat (length (Batch.manifest st)))%Z /\
  Batch.success_count st = Z.of_nat (length (Batch.manifest st)) /\
  (forall before t after,
     tasks = before ++ t :: after ->
     let n := Batch.new_index (Batch.conversion_loop before) in
     (Batch.converts_at n t = true ->
      n = (1 + Z.of_nat (length (Batch.manifest
                                   (Batch.conversion_loop before))))%Z /\
      exists later,
        Batch.manifest st
        = Batch.manifest (Batch.conversion_loop before)
          ++ Batch.renumber n [t] ++ later) /\
     (Batch.converts_at n t = false ->
      Batch.manifest st
      = Batch.manifest (Batch.conversion_loop (before ++ after)))) /\
  (forall r, In r (Batch.manifest st) ->
     exists before t after,
       tasks = before ++ t :: after /\
       Batch.converts_at (Batch.new_index (Batch.conversion_loop before)) t
         = true /\
       [r] = Batch.renumber
               (Batch.new_index (Batch.conversion_loop before)) [t]).
Proof.
  intro st. subst st. unfold Batch.conversion_loop.
  destruct (fold_loop_body_successes tasks (Batch.mkState 1 0 [] []))
    as [Hman [Hidx [Hcnt [events [Hlog [Hlen Hconv]]]]]].
  cbn [Batch.log Batch.manifest Batch.new_index Batch.success_count app]
    in Hman, Hidx, Hcnt, Hlog, Hconv.
  split; [rewrite Hlog; exact Hlen |].
  split; [exact Hman |].
  split; [rewrite Hlog; exact Hconv |].
  split; [rewrite Hlog, Hconv; exact Hman |].
  split; [| split; [| split; [| split]]].
  - rewrite Hman, renumber_index, renumber_length, <- seq_shift, map_map.
    apply map_ext. intro k. lia.
  - rewrite Hidx, Hman, renumber_length. reflexivity.
  - rewrite Hcnt, Hman, renumber_length. reflexivity.
  - intros before t after ->. split.
    + intro Hat.
      destruct (fold_loop_body_successes before (Batch.mkState 1 0 [] []))
        as [Hman' [Hidx' _]].
      cbn [Batch.manifest Batch.new_index app] in Hman', Hidx'.
      split; [rewrite Hidx', Hman', renumber_length; reflexivity |].
      rewrite fold_left_app. cbn [fold_left].
      destruct (fold_loop_body_successes after
                  (Batch.loop_body
                     (fold_left Batch.loop_body before
                        (Batch.mkState 1 0 [] [])) t))
        as [Hafter _].
      destruct (loop_body_success _ t Hat) as [_ [_ [Hrow _]]].
      rewrite Hafter, Hrow, <- app_assoc. eexists. reflexivity.
    + intro Hskip. rewrite !fold_left_app. cbn [fold_left].
      destruct (loop_body_skip _ t Hskip) as [Hi [Hc Hm]].
      apply fold_loop_body_log_free; assumption.
  - intros r Hin. rewrite Hman in Hin.
    apply (renumber_successes_origin tasks (Batch.mkState 1 0 [] [])).
    exact Hin.
Qed.

End BatchFacts.

Lemma conversion_loop_manifest_witness :
  Batch.manifest
    (Batch.conversion_loop (env := Samples.batch_env)
       [Samples.walk; Samples.jump; Samples.wave])
  = [Batch.mkRow 1 "walk" "a" "2.0" "0001.fbx";
     Batch.mkRow 2 "wave" "c" "3.0" "0002.fbx"] /\
  Batch.manifest
    (Batch.conversion_loop (env := Samples.batch_env)
       [Samples.walk; Samples.jump; Samples.wave])
  = Batch.manifest
      (Batch.conversion_loop (env := Samples.batch_env)
         [Samples.walk; Samples.wave]).
Proof.
  pose proof (conversion_loop_manifest (env := Samples.batch_env)
                [Samples.walk; Samples.jump; Samples.wave]) as H.
  cbv zeta in H.
  destruct H as [_ [Hman [_ [_ [_ [_ [_ [Hitem _]]]]]]]].
  split.
  - rewrite Hman. vm_compute. reflexivity.
  - destruct (Hitem [Samples.walk] Samples.jump [Samples.wave]
                eq_refl) as [_ Hskip].
    apply Hskip. vm_compute. reflexivity.
Defined.

(** ** The handlers of the face server *)

Section ServerFacts.

Context {E : FaceServer.Engine}.

Open Scope float_scope.

Lemma slice_front_length {A : Type} (a : list A) (n : Z) :
  (0 <= n <= Z.of_nat (length a))%Z ->
  length (FaceServer.slice a 0 n) = Z.to_nat n.
Proof.
  intro Hn. unfold FaceServer.slice.
  destruct (0 <? 0)%Z eqn:Hz; [discriminate |].
  destruct (n <? 0)%Z eqn:En; [apply Z.ltb_lt in En; lia |].
  rewrite length_firstn, length_skipn. lia.
Qed.

(** X2: the fallback of decode_image cuts the buffer to whole pixels only;
    when what is left is not a whole number of rows, the reshape raises. *)
Lemma decode_image_ragged (img_bytes : list Z) (width height : Z) :
  let size := Z.of_nat (length img_bytes) in
  (0 < width)%Z ->
  size <> (width * height * 3)%Z ->
  ((size / 3 * 3) mod (width * 3) <> 0)%Z ->
  FaceServer.decode_image img_bytes width height = Raise ValueError.
Proof.
  intros size Hw Hsize Hrows. unfold FaceServer.decode_image.
  fold size.
  destruct (size =? width * height * 3)%Z eqn:Hs;
    [apply Z.eqb_eq in Hs; contradiction |].
  cbn [negb FaceServer.floordiv Z.eqb bind].
  unfold FaceServer.floordiv.
  destruct (width * 3 =? 0)%Z eqn:Ew; [apply Z.eqb_eq in Ew; lia |].
  cbn [bind]. unfold FaceServer.reshape.
  assert (Hpix : (0 <= size / 3 * 3 <= size)%Z).
  { pose proof (Z.mul_div_le size 3). pose proof (Z.div_pos size 3). lia. }
  rewrite slice_front_length by exact Hpix.
  rewrite Z2Nat.id by lia.
  destruct ((size / 3 * 3 / (width * 3) <? 0)%Z || (width <? 0)%Z);
    [reflexivity |].
  destruct (size / 3 * 3 / (width * 3) * width * 3 =? size / 3 * 3)%Z eqn:Er;
    [| reflexivity].
  apply Z.eqb_eq in Er. exfalso. apply Hrows.
  rewrite <- Er, <- Z.mul_assoc. apply Z.mod_mul. lia.
Qed.

(** X3: when what is left is a whole number of rows, they are returned,
    floor(floor(len / 3) / width) of them. *)
Lemma decode_image_whole_rows (img_bytes : list Z) (width height : Z) :
  let size := Z.of_nat (length img_bytes) in
  (0 < width)%Z ->
  size <> (width * height * 3)%Z ->
  ((size / 3 * 3) mod (width * 3) = 0)%Z ->
  exists img,
    FaceServer.decode_image img_bytes width height = Ok img /\
    Z.of_nat (length img) = (size / 3 / width)%Z.
Proof.
  intros size Hw Hsize Hrows. unfold FaceServer.decode_image.
  fold size.
  destruct (size =? width * height * 3)%Z eqn:Hs;
    [apply Z.eqb_eq in Hs; contradiction |].
  cbn [negb FaceServer.floordiv Z.eqb bind].
  unfold FaceServer.floordiv.
  destruct (width * 3 =? 0)%Z eqn:Ew; [apply Z.eqb_eq in Ew; lia |].
  cbn [bind]. unfold FaceServer.reshape.
  assert (Hsz : (0 <= size)%Z) by (subst size; lia).
  assert (Hpix : (0 <= size / 3 * 3 <= size)%Z).
  { pose proof (Z.mul_div_le size 3). pose proof (Z.div_pos size 3). lia. }
  rewrite slice_front_length by exact Hpix.
  rewrite Z2Nat.id by lia.
  assert (Hh : (size / 3 * 3 / (width * 3) = size / 3 / width)%Z).
  { rewrite Z.div_mul_cancel_r by lia. reflexivity. }
  assert (Hexact : (size / 3 * 3 / (width * 3) * width * 3 = size / 3 * 3)%Z).
  { pose proof (Z.div_mod (size / 3 * 3) (width * 3)) as Hdm.
    rewrite Hrows in Hdm. lia. }
  assert (Hnn : (0 <= size / 3 * 3 / (width * 3))%Z).
  { apply Z.div_pos; lia. }
  destruct (size / 3 * 3 / (width * 3) <? 0)%Z eqn:Hneg;
    [apply Z.ltb_lt in Hneg; lia |].
  destruct (width <? 0)%Z eqn:Hwn; [apply Z.ltb_lt in Hwn; lia |].
  cbn [orb]. rewrite Hexact, Z.eqb_refl.
  eexists. split; [reflexivity |].
  rewrite Hh.
  assert (Hlen : forall h w px, length (FaceServer.rows_of h w px) = h).
  { induction h as [| h IH]; intros w px; simpl; [| rewrite IH]; reflexivity. }
  rewrite Hlen. apply Z2Nat.id.
  apply Z.div_pos; [apply Z.div_pos; lia | lia].
Qed.

(** C1, at a failing input: a buffer of ten bytes announced as 2 x 2 is cut
    to nine bytes, one row of two pixels is expected, and the reshape
    raises. *)
Theorem process_image_partial_row :
  FaceServer.decode_image Samples.ten_bytes 2 2 = Raise ValueError /\
  FaceServer.process_image Samples.ten_bytes 2 2 = Raise ValueError.
Proof.
  split; reflexivity.
Qed.

(** C10: when the best match scores exactly the threshold, the answer is
    "not registered" with an empty identifier. *)
Theorem verify_at_threshold (face_db : FaceServer.store)
    (img_bytes : list Z) (width height : Z) (img : FaceServer.image)
    (f0 : FaceServer.face) (rest : list FaceServer.face)
    (vid : option string) :
  FaceServer.process_image img_bytes width height = Ok img ->
  FaceServer.face_app_get img = f0 :: rest ->
  FaceServer.find_match face_db
    (FaceServer.embedding (FaceServer.largest_face f0 rest))
    = Ok (vid, FaceServer.SIMILARITY_THRESHOLD) ->
  FaceServer.verify face_db img_bytes width height
  = FaceServer.Verdict (Some EmptyString) false 0.5.
Proof.
  intros Himg Hfaces Hmatch. unfold FaceServer.verify.
  rewrite Himg. cbn [bind]. rewrite Hfaces.
  unfold FaceServer.verify_faces. rewrite Hmatch. reflexivity.
Qed.

Lemma assign_existing (db : FaceServer.store) (vid : string)
    (old data : list float) :
  FaceServer.lookup db vid = Some old ->
  length (FaceServer.assign db vid data) = length db /\
  FaceServer.lookup (FaceServer.assign db vid data) vid = Some data.
Proof.
  induction db as [| [k v] rest IH]; simpl; [discriminate |].
  destruct (String.eqb k vid) eqn:Hk; intro Hold.
  - simpl. rewrite Hk. split; reflexivity.
  - simpl. rewrite Hk. destruct (IH Hold) as [Hlen Hget].
    split; [rewrite Hlen; reflexivity | exact Hget].
Qed.

(** X5: registering an identifier the store already holds replaces its
    embedding: the store keeps its size, and the file holds the same
    mapping as the memory. *)
Lemma register_overwrites (st : FaceServer.server_state)
    (uuid : option string) (img_bytes : list Z) (width height : Z)
    (img : FaceServer.image) (f0 : FaceServer.face)
    (rest : list FaceServer.face) (old : list float) :
  FaceServer.process_image img_bytes width height = Ok img ->
  FaceServer.face_app_get img = f0 :: rest ->
  FaceServer.lookup (FaceServer.face_db st) (FaceServer.visitor_id_of uuid)
    = Some old ->
  let st' := fst (FaceServer.register st uuid img_bytes width height) in
  length (FaceServer.face_db st') = length (FaceServer.face_db st) /\
  FaceServer.lookup (FaceServer.face_db st') (FaceServer.visitor_id_of uuid)
    = Some (FaceServer.embedding (FaceServer.largest_face f0 rest)) /\
  FaceServer.db_file st' = FaceServer.face_db st'.
Proof.
  intros Himg Hfaces Hold. unfold FaceServer.register.
  rewrite Himg, Hfaces. cbn [fst FaceServer.face_db FaceServer.db_file].
  destruct (assign_existing (FaceServer.face_db st) _ _
              (FaceServer.embedding (FaceServer.largest_face f0 rest)) Hold)
    as [Hlen Hget].
  repeat split; assumption.
Qed.

End ServerFacts.

Lemma decode_image_ragged_witness :
  FaceServer.decode_image Samples.ten_bytes 2 2 = Raise ValueError.
Proof.
  apply (decode_image_ragged Samples.ten_bytes 2 2).
  - reflexivity.
  - vm_compute. discriminate.
  - vm_compute. discriminate.
Defined.

Lemma decode_image_whole_rows_witness :
  exists img,
    FaceServer.decode_image
      [1; 2; 3; 4; 5; 6; 7; 8; 9; 10; 11; 12; 13]%Z 2 3 = Ok img /\
    Z.of_nat (length img) = 2%Z.
Proof.
  apply (decode_image_whole_rows
           [1; 2; 3; 4; 5; 6; 7; 8; 9; 10; 11; 12; 13]%Z 2 3).
  - reflexivity.
  - vm_compute. discriminate.
  - reflexivity.
Defined.

Lemma register_overwrites_witness :
  let st := FaceServer.mkServer Samples.half_store Samples.half_store in
  let st' := fst (FaceServer.register (E := Samples.stub_engine) st
                    (Some "a"%string) Samples.one_pixel 1 1) in
  length (FaceServer.face_db st') = 1%nat /\
  FaceServer.lookup (FaceServer.face_db st') "visitor_a"%string
    = Some [1; 1; 1; 1]%float /\
  FaceServer.db_file st' = FaceServer.face_db st'.
Proof.
  apply (register_overwrites (E := Samples.stub_engine)
           (FaceServer.mkServer Samples.half_store Samples.half_store)
           (Some "a"%string) Samples.one_pixel 1 1 [[(30, 20, 10)%Z]]
           (FaceServer.mkFace (0, 0, 10, 10)%float [1; 1; 1; 1]%float) []
           [1; 0; 0; 0]%float).
  - vm_compute. reflexivity.
  - reflexivity.
  - reflexivity.
Defined.

Lemma verify_at_threshold_witness :
  FaceServer.verify (E := Samples.stub_engine) Samples.half_store
    Samples.one_pixel 1 1
  = FaceServer.Verdict (Some EmptyString) false 0.5%float.
Proof.
  apply (verify_at_threshold (E := Samples.stub_engine) Samples.half_store
           Samples.one_pixel 1 1 [[(30, 20, 10)%Z]]
           (FaceServer.mkFace (0, 0, 10, 10)%float [1; 1; 1; 1]%float) []
           (Some "visitor_a"%string)).
  - vm_compute. reflexivity.
  - reflexivity.
  - vm_compute. reflexivity.
Defined.

Lemma find_match_zero_init_witness :
  FaceServer.find_match Samples.away_store [1; 0]%float
  = Ok (None, 0%float).
Proof.
  apply (find_match_zero_init Samples.away_store [1; 0]%float).
  intros vid data [H | [H | []]]; injection H as <- <-;
    eexists; (split; [vm_compute; reflexivity | vm_compute; reflexivity]).
Defined.

(** ** The order of binary64 *)

Ltac rank_fwd :=
  first [ discriminate
        | intros _; eexists; eexists; split; [reflexivity |];
          split; [reflexivity |]; simpl; lia ].

Ltac rank_bwd :=
  let rx := fresh "rx" in
  let ry := fresh "ry" in
  let Hx := fresh "Hx" in
  let Hy := fresh "Hy" in
  let H := fresh "H" in
  intros (rx & ry & Hx & Hy & H);
  first [ discriminate Hx | discriminate Hy
        | injection Hx as <-; injection Hy as <-; simpl in H;
          first [reflexivity | lia] ].

Lemma SFltb_rank (x y : spec_float) :
  SFltb x y = true <->
  exists rx ry, sf_rank x = Some rx /\ sf_rank y = Some ry /\ lex_lt rx ry.
Proof.
  unfold SFltb.
  destruct x as [sx | sx | | sx mx ex], y as [sy | sy | | sy my ey];
    try destruct sx; try destruct sy; simpl;
    try (split; [rank_fwd | rank_bwd]).
  - change (PosDef.Pos.compare_cont Eq mx my) with (Pos.compare mx my).
    destruct (Z.compare_spec ex ey) as [He | He | He];
      [destruct (Pos.compare_spec mx my) as [Hm | Hm | Hm] | |]; simpl;
      (split; [rank_fwd | rank_bwd]).
  - change (PosDef.Pos.compare_cont Eq mx my) with (Pos.compare mx my).
    destruct (Z.compare_spec ex ey) as [He | He | He];
      [destruct (Pos.compare_spec mx my) as [Hm | Hm | Hm] | |]; simpl;
      (split; [rank_fwd | rank_bwd]).
Qed.

Section FloatStrictOrder.

Open Scope float_scope.

Lemma ltb_trans (a b c : float) :
  (a <? b) = true -> (b <? c) = true -> (a <? c) = true.
Proof.
  rewrite !ltb_spec, !SFltb_rank.
  intros (ra & rb & Ha & Hb & Hab) (rb' & rc & Hb' & Hc & Hbc).
  rewrite Hb in Hb'. injection Hb' as <-.
  exists ra, rc. split; [exact Ha |]. split; [exact Hc |].
  destruct ra as [[a1 a2] a3], rb as [[b1 b2] b3], rc as [[c1 c2] c3].
  simpl in *. lia.
Qed.

Lemma ltb_irrefl (a : float) : (a <? a) = false.
Proof.
  destruct (a <? a) eqn:H; [| reflexivity].
  rewrite ltb_spec in H. apply SFltb_rank in H.
  destruct H as (ra & rb & Ha & Hb & H).
  rewrite Ha in Hb. injection Hb as <-.
  destruct ra as [[a1 a2] a3]. simpl in H. lia.
Qed.

(** A running strict maximum stays ahead of what it has passed. *)
Lemma ltb_ahead (best best' x : float) :
  (best <? x) = false -> (best <? best') = true -> (best' <? x) = false.
Proof.
  intros Hx Hup. destruct (best' <? x) eqn:H; [| reflexivity].
  rewrite (ltb_trans best best' x Hup H) in Hx. discriminate.
Qed.

End FloatStrictOrder.

(** ** The matcher, continued *)

Section MatchMore.

Open Scope float_scope.

Lemma find_match_from_sound (embedding : list float)
    (items : FaceServer.store) (best_id : option string) (best_sim : float)
    (vid : string) (sim : float) :
  FaceServer.find_match_from embedding items best_id best_sim
    = Ok (Some vid, sim) ->
  (best_id = Some vid /\ best_sim = sim) \/
  (exists data, In (vid, data) items /\
                FaceServer.similarity embedding data = Ok sim).
Proof.
  revert best_id best_sim.
  induction items as [| [k data] rest IH]; intros best_id best_sim Hrun.
  - simpl in Hrun. injection Hrun as -> ->. left. split; reflexivity.
  - simpl in Hrun.
    destruct (FaceServer.similarity embedding data) as [s | e] eqn:Hs;
      [| discriminate].
    cbn [bind] in Hrun.
    destruct (best_sim <? s).
    + destruct (IH _ _ Hrun) as [[Hid Hsim] | [d [Hin Hd]]].
      * injection Hid as ->. subst s. right. exists data.
        split; [left; reflexivity | exact Hs].
      * right. exists d. split; [right; exact Hin | exact Hd].
    + destruct (IH _ _ Hrun) as [Hsame | [d [Hin Hd]]].
      * left. exact Hsame.
      * right. exists d. split; [right; exact Hin | exact Hd].
Qed.

(** X8: an identifier the matcher returns is a key of the store, and the
    score returned with it is the similarity of that entry. *)
Theorem find_match_sound (face_db : FaceServer.store)
    (embedding : list float) (vid : string) (sim : float) :
  FaceServer.find_match face_db embedding = Ok (Some vid, sim) ->
  exists data, In (vid, data) face_db /\
               FaceServer.similarity embedding data = Ok sim.
Proof.
  intro Hrun. apply find_match_from_sound in Hrun.
  destruct Hrun as [[Hid _] | H]; [discriminate | exact H].
Qed.

Lemma find_match_from_maximal (embedding : list float)
    (items : FaceServer.store) (best_id : option string) (best_sim : float)
    (found : option string * float) :
  FaceServer.find_match_from embedding items best_id best_sim = Ok found ->
  (best_sim <? snd found) = true \/ best_sim = snd found.
Proof.
  revert best_id best_sim.
  induction items as [| [k data] rest IH]; intros best_id best_sim Hrun.
  - simpl in Hrun. injection Hrun as <-. right. reflexivity.
  - simpl in Hrun.
    destruct (FaceServer.similarity embedding data) as [s | e];
      [| discriminate].
    cbn [bind] in Hrun.
    destruct (best_sim <? s) eqn:Hlt.
    + destruct (IH _ _ Hrun) as [H | H].
      * left. exact (ltb_trans _ _ _ Hlt H).
      * left. rewrite <- H. exact Hlt.
    + exact (IH _ _ Hrun).
Qed.

Lemma find_match_from_bound (embedding : list float)
    (items : FaceServer.store) (best_id : option string) (best_sim : float)
    (found : option string * float) :
  FaceServer.find_match_from embedding items best_id best_sim = Ok found ->
  forall vid data sim,
    In (vid, data) items ->
    FaceServer.similarity embedding data = Ok sim ->
    (snd found <? sim) = false.
Proof.
  revert best_id best_sim.
  induction items as [| [k d] rest IH]; intros best_id best_sim Hrun
    vid data sim Hin Hsim; [contradiction |].
  simpl in Hrun.
  destruct (FaceServer.similarity embedding d) as [s | e] eqn:Hs;
    [| discriminate].
  cbn [bind] in Hrun.
  destruct Hin as [Heq | Hin].
  - injection Heq as -> ->. rewrite Hs in Hsim. injection Hsim as ->.
    destruct (best_sim <? sim) eqn:Hlt.
    + destruct (find_match_from_maximal _ _ _ _ _ Hrun) as [H | H].
      * apply (ltb_ahead sim); [apply ltb_irrefl | exact H].
      * rewrite <- H. apply ltb_irrefl.
    + destruct (find_match_from_maximal _ _ _ _ _ Hrun) as [H | H].
      * apply (ltb_ahead best_sim); assumption.
      * rewrite <- H. exact Hlt.
  - destruct (best_sim <? s); exact (IH _ _ Hrun vid data sim Hin Hsim).
Qed.

(** X9: no stored embedding is more similar to the query than the score the
    matcher returns. *)
Theorem find_match_maximal (face_db : FaceServer.store)
    (embedding : list float) (best_id : option string) (best_sim : float)
    (vid : string) (data : list float) (sim : float) :
  FaceServer.find_match face_db embedding = Ok (best_id, best_sim) ->
  In (vid, data) face_db ->
  FaceServer.similarity embedding data = Ok sim ->
  (best_sim <? sim) = false.
Proof.
  intros Hrun Hin Hsim.
  exact (find_match_from_bound _ _ _ _ _ Hrun vid data sim Hin Hsim).
Qed.

Lemma similarity_raises (embedding data : list float) :
  (length embedding = length data ->
   exists sim, FaceServer.similarity embedding data = Ok sim) /\
  (length embedding <> length data ->
   FaceServer.similarity embedding data = Raise ValueError).
Proof.
  unfold FaceServer.similarity, FaceServer.np_dot.
  destruct (Nat.eqb_spec (length embedding) (length data)) as [He | Hn].
  - split; [intros _; eexists; reflexivity | intro H; contradiction].
  - split; [intro H; contradiction | intros _; reflexivity].
Qed.

Lemma find_match_from_raises (embedding : list float)
    (items : FaceServer.store) (best_id : option string) (best_sim : float) :
  (Forall (fun e => length (snd e) = length embedding) items ->
   exists found,
     FaceServer.find_match_from embedding items best_id best_sim = Ok found)
  /\
  (Exists (fun e => length (snd e) <> length embedding) items ->
   FaceServer.find_match_from embedding items best_id best_sim
   = Raise ValueError).
Proof.
  revert best_id best_sim.
  induction items as [| [k data] rest IH]; intros best_id best_sim.
  - split; [intros _; eexists; reflexivity | intro H; inversion H].
  - simpl.
    destruct (similarity_raises embedding data) as [Hok Hbad].
    destruct (Nat.eq_dec (length embedding) (length data)) as [He | Hn].
    + destruct (Hok He) as [sim Hsim]. rewrite Hsim. cbn [bind].
      split.
      * intro Hall. inversion Hall; subst.
        destruct (best_sim <? sim); apply IH; assumption.
      * intro Hex. inversion Hex; subst;
          [simpl in *; congruence |].
        destruct (best_sim <? sim); apply IH; assumption.
    + rewrite (Hbad Hn). cbn [bind]. split; [| reflexivity].
      intro Hall. inversion Hall; subst. simpl in *. congruence.
Qed.

(** X10: the matcher raises exactly when some stored embedding has another
    length than the query, and the exception is then ValueError. *)
Theorem find_match_raises (face_db : FaceServer.store)
    (embedding : list float) :
  (Forall (fun e => length (snd e) = length embedding) face_db ->
   exists found, FaceServer.find_match face_db embedding = Ok found) /\
  (Exists (fun e => length (snd e) <> length embedding) face_db ->
   FaceServer.find_match face_db embedding = Raise ValueError).
Proof.
  apply find_match_from_raises.
Qed.

End MatchMore.

(** ** The handlers, continued *)

Section HandlerMore.

Context {E : FaceServer.Engine}.

Open Scope float_scope.

(** X11: an answer "registered" carries an identifier that is a key of the
    store, and its score exceeds the threshold. *)
Theorem verify_registered_known (face_db : FaceServer.store)
    (img_bytes : list Z) (width height : Z) (vid : option string)
    (sim : float) :
  FaceServer.verify face_db img_bytes width height
    = FaceServer.Verdict vid true sim ->
  (FaceServer.SIMILARITY_THRESHOLD <? sim) = true /\
  exists v data, vid = Some v /\ In (v, data) face_db.
Proof.
  unfold FaceServer.verify. intro Hv.
  destruct (FaceServer.process_image img_bytes width height) as [img | e];
    [| discriminate].
  cbn [bind] in Hv. unfold FaceServer.verify_faces in Hv.
  destruct (FaceServer.face_app_get img) as [| f0 rest]; [discriminate |].
  destruct (FaceServer.find_match face_db _) as [[best_id best_sim] | e]
    eqn:Hm; [| discriminate].
  cbn [bind] in Hv.
  destruct (FaceServer.SIMILARITY_THRESHOLD <? best_sim) eqn:Hthr;
    [| discriminate].
  injection Hv as -> ->. split; [exact Hthr |].
  destruct vid as [v |].
  - destruct (find_match_from_sound _ _ _ _ _ _ Hm)
      as [[Hid _] | [data [Hin _]]]; [discriminate |].
    exists v, data. split; [reflexivity | exact Hin].
  - assert (Hok : FaceServer.best_ok (None, sim)).
    { apply (find_match_from_best_ok
               (FaceServer.embedding (FaceServer.largest_face f0 rest))
               face_db None 0);
        [left; split; reflexivity | exact Hm]. }
    destruct Hok as [[_ Hz] | [v [Hv _]]]; simpl in *;
      [subst sim; discriminate | discriminate].
Qed.

Lemma largest_face_fold (rest : list FaceServer.face)
    (f0 : FaceServer.face) :
  let best := FaceServer.largest_face f0 rest in
  In best (f0 :: rest) /\
  ((FaceServer.area f0 <? FaceServer.area best) = true \/ best = f0) /\
  forall f, In f rest ->
    (FaceServer.area best <? FaceServer.area f) = false.
Proof.
  unfold FaceServer.largest_face. revert f0.
  induction rest as [| g rest IH]; intro f0; cbn [fold_left].
  - split; [left; reflexivity |]. split; [right; reflexivity |].
    intros f [].
  - destruct (FaceServer.area f0 <? FaceServer.area g) eqn:Hlt.
    + destruct (IH g) as [Hin [Hup Hmax]].
      split; [right; exact Hin |]. split.
      * left. destruct Hup as [Hup | ->]; [| exact Hlt].
        exact (ltb_trans _ _ _ Hlt Hup).
      * intros f [<- | Hf]; [| exact (Hmax f Hf)].
        destruct Hup as [Hup | ->]; [| apply ltb_irrefl].
        apply (ltb_ahead (FaceServer.area g)); [apply ltb_irrefl | exact Hup].
    + destruct (IH f0) as [Hin [Hup Hmax]].
      split; [destruct Hin as [<- | Hin]; [left; reflexivity
                                          | right; right; exact Hin] |].
      split; [exact Hup |].
      intros f [<- | Hf]; [| exact (Hmax f Hf)].
      destruct Hup as [Hup | ->]; [| exact Hlt].
      apply (ltb_ahead (FaceServer.area f0)); assumption.
Qed.

(** X12: the face the handlers keep is one of the detected faces, and no
    detected face has a larger bounding-box area. *)
Theorem largest_face_maximal (f0 : FaceServer.face)
    (rest : list FaceServer.face) :
  In (FaceServer.largest_face f0 rest) (f0 :: rest) /\
  forall f, In f (f0 :: rest) ->
    (FaceServer.area (FaceServer.largest_face f0 rest) <? FaceServer.area f)
    = false.
Proof.
  destruct (largest_face_fold rest f0) as [Hin [Hup Hmax]].
  split; [exact Hin |].
  intros f [<- | Hf]; [| exact (Hmax f Hf)].
  destruct Hup as [Hup | ->]; [| apply ltb_irrefl].
  destruct (_ <? FaceServer.area f0) eqn:H; [| reflexivity].
  pose proof (ltb_trans _ _ _ Hup H) as Hc.
  rewrite ltb_irrefl in Hc. discriminate.
Qed.

Lemma assign_lookup (db : FaceServer.store) (vid : string)
    (data : list float) (k : string) :
  FaceServer.lookup (FaceServer.assign db vid data) k
  = if String.eqb k vid then Some data else FaceServer.lookup db k.
Proof.
  rewrite (String.eqb_sym k vid).
  induction db as [| [k0 v0] rest IH]; simpl.
  - destruct (String.eqb vid k); reflexivity.
  - destruct (String.eqb_spec k0 vid) as [Heq | Hn]; simpl.
    + subst k0. destruct (String.eqb vid k); reflexivity.
    + destruct (String.eqb_spec k0 k) as [Hk | Hk].
      * subst k0. destruct (String.eqb_spec vid k) as [Hv | _];
          [congruence | reflexivity].
      * exact IH.
Qed.

(** X13: reading the store after [face_db[vid] = data] gives the new
    embedding under [vid] and what was there under every other key. *)
Theorem lookup_assign (db : FaceServer.store) (vid : string)
    (data : list float) (k : string) :
  FaceServer.lookup (FaceServer.assign db vid data) k
  = if String.eqb k vid then Some data else FaceServer.lookup db k.
Proof.
  apply assign_lookup.
Qed.

Lemma assign_keys_in (db : FaceServer.store) (vid : string)
    (data : list float) (k : string) :
  In k (map fst (FaceServer.assign db vid data)) ->
  k = vid \/ In k (map fst db).
Proof.
  induction db as [| [k0 v0] rest IH]; simpl.
  - intros [<- | []]. left. reflexivity.
  - destruct (String.eqb_spec k0 vid) as [-> | Hn]; simpl.
    + intros [<- | H]; [left; reflexivity | right; right; exact H].
    + intros [<- | H]; [right; left; reflexivity |].
      destruct (IH H) as [-> | Hin];
        [left; reflexivity | right; right; exact Hin].
Qed.

(** X14: the assignment keeps the keys of the store distinct; the store
    grows by one entry for a new key and keeps its size for a known one. *)
Theorem assign_keys (db : FaceServer.store) (vid : string)
    (data : list float) :
  NoDup (map fst db) ->
  NoDup (map fst (FaceServer.assign db vid data)) /\
  length (FaceServer.assign db vid data)
  = match FaceServer.lookup db vid with
    | Some _ => length db
    | None => S (length db)
    end.
Proof.
  induction db as [| [k0 v0] rest IH]; simpl; intro Hnd.
  - split; [constructor; [intros [] | constructor] | reflexivity].
  - inversion Hnd as [| x l Hnotin Hrest]; subst.
    destruct (String.eqb_spec k0 vid) as [-> | Hn]; simpl.
    + split; [exact Hnd | reflexivity].
    + destruct (IH Hrest) as [Hnd' Hlen]. split.
      * constructor; [| exact Hnd'].
        intro Hin. apply assign_keys_in in Hin.
        destruct Hin as [-> | Hin]; [congruence | contradiction].
      * rewrite Hlen. destruct (FaceServer.lookup rest vid); reflexivity.
Qed.




End HandlerMore.

(** ** The image pipeline, continued *)

Section ImageMore.

Context {E : FaceServer.Engine}.

Lemma pixels_of_channels (n : nat) (buf : list Z) :
  length buf = (3 * n)%nat ->
  length (FaceServer.pixels_of buf) = n /\
  flat_map (fun '(c0, c1, c2) => [c0; c1; c2]) (FaceServer.pixels_of buf)
  = buf.
Proof.
  revert buf. induction n as [| n IH]; intros buf Hlen.
  - destruct buf; [split; reflexivity | discriminate].
  - destruct buf as [| c0 [| c1 [| c2 rest]]]; simpl in Hlen; try lia.
    destruct (IH rest) as [Hl Hf]; [lia |].
    cbn [FaceServer.pixels_of flat_map length app].
    rewrite Hl, Hf. split; reflexivity.
Qed.

Lemma rows_of_shape (h w : nat) (px : list FaceServer.pixel) :
  length px = (h * w)%nat ->
  length (FaceServer.rows_of h w px) = h /\
  Forall (fun row => length row = w) (FaceServer.rows_of h w px) /\
  concat (FaceServer.rows_of h w px) = px.
Proof.
  revert px. induction h as [| h IH]; intros px Hlen.
  - destruct px; [| discriminate].
    repeat split; constructor.
  - cbn [FaceServer.rows_of].
    destruct (IH (skipn w px)) as [Hl [Hall Hcat]];
      [rewrite length_skipn; lia |].
    cbn [length concat]. rewrite Hl, Hcat, firstn_skipn.
    split; [reflexivity |]. split; [| reflexivity].
    constructor; [| exact Hall].
    rewrite length_firstn. lia.
Qed.

Lemma flat_map_rows {A B : Type} (g : A -> list B) (l : list (list A)) :
  flat_map (flat_map g) l = flat_map g (concat l).
Proof.
  induction l as [| row l IH]; simpl; [reflexivity |].
  rewrite flat_map_app, IH. reflexivity.
Qed.

(** X17: a buffer of exactly width * height * 3 bytes becomes height rows
    of width pixels, and the channels of those rows, read in order, are the
    buffer. *)
Theorem decode_image_exact (img_bytes : list Z) (width height : Z) :
  (0 <= width)%Z -> (0 <= height)%Z ->
  Z.of_nat (length img_bytes) = (width * height * 3)%Z ->
  exists img,
    FaceServer.decode_image img_bytes width height = Ok img /\
    Z.of_nat (length img) = height /\
    Forall (fun row => Z.of_nat (length row) = width) img /\
    FaceServer.channels_of img = img_bytes.
Proof.
  intros Hw Hh Hsize. unfold FaceServer.decode_image.
  rewrite Hsize, Z.eqb_refl. cbn [negb]. unfold FaceServer.reshape.
  destruct (height <? 0)%Z eqn:Hhn; [apply Z.ltb_lt in Hhn; lia |].
  destruct (width <? 0)%Z eqn:Hwn; [apply Z.ltb_lt in Hwn; lia |].
  cbn [orb].
  replace (height * width * 3)%Z with (width * height * 3)%Z by lia.
  rewrite Hsize, Z.eqb_refl.
  destruct (pixels_of_channels (Z.to_nat height * Z.to_nat width) img_bytes)
    as [Hpx Hflat]; [nia |].
  destruct (rows_of_shape (Z.to_nat height) (Z.to_nat width)
              (FaceServer.pixels_of img_bytes) Hpx) as [Hl [Hall Hcat]].
  eexists. split; [reflexivity |]. split; [rewrite Hl; lia |]. split.
  - eapply Forall_impl; [| exact Hall]. intros row Hrow. simpl in Hrow.
    rewrite Hrow. lia.
  - unfold FaceServer.channels_of. rewrite flat_map_rows.
    etransitivity; [| exact Hflat]. f_equal. exact Hcat.
Qed.

(** X18: a buffer that holds less than one row of pixels is always an
    error, whatever the engines: the reshape raises ValueError, or the empty
    image makes the scale computation raise ZeroDivisionError. *)
Theorem process_image_undersized (img_bytes : list Z) (width height : Z) :
  (0 < width)%Z ->
  (Z.of_nat (length img_bytes) < 3 * width)%Z ->
  FaceServer.process_image img_bytes width height = Raise ValueError \/
  FaceServer.process_image img_bytes width height = Raise ZeroDivisionError.
Proof.
  intros Hw Hshort. unfold FaceServer.process_image.
  destruct (FaceServer.decode_image img_bytes width height) as [img | e]
    eqn:Hdec.
  - right. cbn [bind].
    assert (Himg : img = []).
    { unfold FaceServer.decode_image in Hdec.
      set (size := Z.of_nat (length img_bytes)) in *.
      destruct (size =? width * height * 3)%Z eqn:Hs.
      - apply Z.eqb_eq in Hs. cbn [negb] in Hdec.
        assert (height = 0%Z) by nia. subst height.
        unfold FaceServer.reshape in Hdec. cbn [Z.ltb Z.compare orb] in Hdec.
        destruct (width <? 0)%Z; [discriminate |].
        cbn [orb] in Hdec.
        destruct (_ =? _)%Z in Hdec; [| discriminate].
        injection Hdec as <-. reflexivity.
      - cbn [negb] in Hdec. unfold FaceServer.floordiv in Hdec.
        cbn [Z.eqb bind] in Hdec.
        destruct (width * 3 =? 0)%Z eqn:Ew; [discriminate |].
        cbn [bind] in Hdec.
        assert (Hq : (size / 3 * 3 / (width * 3) = 0)%Z).
        { apply Z.div_small.
          pose proof (Z.mul_div_le size 3). pose proof (Z.div_pos size 3).
          subst size. lia. }
        rewrite Hq in Hdec. unfold FaceServer.reshape in Hdec.
        cbn [Z.ltb Z.compare orb] in Hdec.
        destruct (width <? 0)%Z; [discriminate |].
        cbn [orb] in Hdec.
        destruct (_ =? _)%Z in Hdec; [| discriminate].
        injection Hdec as <-. reflexivity. }
    subst img. reflexivity.
  - left. cbn [bind]. f_equal.
    unfold FaceServer.decode_image in Hdec.
    set (size := Z.of_nat (length img_bytes)) in *.
    destruct (size =? width * height * 3)%Z.
    + cbn [negb] in Hdec. unfold FaceServer.reshape in Hdec.
      repeat match type of Hdec with
             | (if ?c then _ else _) = _ => destruct c
             end; congruence.
    + cbn [negb] in Hdec. unfold FaceServer.floordiv in Hdec.
      cbn [Z.eqb bind] in Hdec.
      destruct (width * 3 =? 0)%Z eqn:Ew; [apply Z.eqb_eq in Ew; lia |].
      cbn [bind] in Hdec. unfold FaceServer.reshape in Hdec.
      repeat match type of Hdec with
             | (if ?c then _ else _) = _ => destruct c
             end; congruence.
Qed.

Lemma Forall_firstn_skipn {A : Type} (P : A -> Prop) (a : list A)
    (n m : nat) :
  Forall P a -> Forall P (firstn n (skipn m a)).
Proof.
  intro H.
  rewrite <- (firstn_skipn m a) in H. apply Forall_app in H.
  destruct H as [_ H].
  rewrite <- (firstn_skipn n (skipn m a)) in H. apply Forall_app in H.
  exact (proj1 H).
Qed.

Lemma Forall_slice {A : Type} (P : A -> Prop) (a : list A)
    (start stop : Z) :
  Forall P a -> Forall P (FaceServer.slice a start stop).
Proof.
  intro H. unfold FaceServer.slice. apply Forall_firstn_skipn. exact H.
Qed.

Lemma slice_window_length {A : Type} (a : list A) (target : Z) :
  (0 < target)%Z ->
  let n := Z.of_nat (length a) in
  let start := ((n - target) / 2)%Z in
  Z.of_nat (length (FaceServer.slice a start (start + target)))
  = FaceServer.crop_len n target.
Proof.
  intros Ht n start. unfold FaceServer.slice, FaceServer.crop_len.
  fold n. rewrite length_firstn, length_skipn.
  destruct (target <=? n)%Z eqn:Hle.
  - apply Z.leb_le in Hle.
    assert (Hs : (0 <= start)%Z) by (apply Z.div_pos; lia).
    assert (Hs2 : (start + target <= n)%Z).
    { subst start. pose proof (Z.mul_div_le (n - target) 2). lia. }
    destruct (start <? 0)%Z eqn:E1; [apply Z.ltb_lt in E1; lia |].
    destruct (start + target <? 0)%Z eqn:E2; [apply Z.ltb_lt in E2; lia |].
    subst n. lia.
  - apply Z.leb_gt in Hle.
    assert (Hs : (start = - ((target - n + 1) / 2))%Z).
    { subst start.
      pose proof (Z.div_mod (n - target) 2).
      pose proof (Z.mod_pos_bound (n - target) 2).
      pose proof (Z.div_mod (target - n + 1) 2).
      pose proof (Z.mod_pos_bound (target - n + 1) 2). lia. }
    assert (Hk : (1 <= (target - n + 1) / 2)%Z).
    { apply Z.div_le_lower_bound; lia. }
    assert (Hk2 : ((target - n + 1) / 2 <= target - n)%Z).
    { apply Z.div_le_upper_bound; lia. }
    destruct (start <? 0)%Z eqn:E1; [| apply Z.ltb_ge in E1; lia].
    destruct (start + target <? 0)%Z eqn:E2; [apply Z.ltb_lt in E2; lia |].
    subst n. lia.
Qed.

(** X19: the centre crop of an image of new_h rows and new_w columns keeps
    exactly [target] rows and columns when there are that many; when a side
    is k short of the target, the negative start index leaves only the last
    ceil(k / 2) of its entries, or all of them if there are fewer. *)
Theorem center_crop_shape (img : FaceServer.image) (new_w new_h target : Z) :
  (0 < target)%Z ->
  Z.of_nat (length img) = new_h ->
  Forall (fun row => Z.of_nat (length row) = new_w) img ->
  let out := FaceServer.center_crop img new_w new_h target in
  Z.of_nat (length out) = FaceServer.crop_len new_h target /\
  Forall (fun row => Z.of_nat (length row)
                     = FaceServer.crop_len new_w target) out.
Proof.
  intros Ht Hh Hw out. subst out. unfold FaceServer.center_crop. split.
  - rewrite length_map. subst new_h. apply slice_window_length. exact Ht.
  - apply Forall_map.
    apply (Forall_slice _ _ ((new_h - target) / 2)
             ((new_h - target) / 2 + target)) in Hw.
    eapply Forall_impl; [| exact Hw].
    intros row Hrow. simpl in Hrow. subst new_w.
    apply slice_window_length. exact Ht.
Qed.

(** The crop of process_image is [center_crop]. *)
Lemma process_image_crop (img_bytes : list Z) (width height : Z)
    (img resized : FaceServer.image) (h w new_w new_h : Z) :
  FaceServer.decode_image img_bytes width height = Ok img ->
  FaceServer.shape (map (map (fun '(c0, c1, c2) => (c2, c1, c0))) img)
    = (h, w) ->
  Z.min h w <> 0%Z ->
  float_to_int (PrimFloat.mul (float_of_Z w)
                  (PrimFloat.div (float_of_Z 640) (float_of_Z (Z.min h w))))
    = Ok new_w ->
  float_to_int (PrimFloat.mul (float_of_Z h)
                  (PrimFloat.div (float_of_Z 640) (float_of_Z (Z.min h w))))
    = Ok new_h ->
  FaceServer.cv2_resize (map (map (fun '(c0, c1, c2) => (c2, c1, c0))) img)
    new_w new_h = Ok resized ->
  FaceServer.process_image img_bytes width height
  = bind (FaceServer.adjust_lut
            (FaceServer.center_crop resized new_w new_h 640) 1.2%float)
         (fun out =>
            Ok (FaceServer.cv2_convertScaleAbs out 1.1%float 10%float)).
Proof.
  intros Hdec Hshape Hmin Hw Hh Hres.
  unfold FaceServer.process_image. rewrite Hdec. cbn [bind].
  cbn [FaceServer.FLIP_VERTICAL FaceServer.IMG_CONFIG].
  rewrite Hshape.
  cbn [FaceServer.TARGET_SIZE FaceServer.IMG_CONFIG].
  destruct (Z.min h w =? 0)%Z eqn:Hz; [apply Z.eqb_eq in Hz; contradiction |].
  rewrite Hw. cbn [bind]. rewrite Hh. cbn [bind].
  rewrite Hres. cbn [bind]. reflexivity.
Qed.

End ImageMore.

(** ** Smoothing *)

Section SmoothFacts.

Context {F : Type} {SF : Scalar F}.

Lemma np_convolve_same_length (a v : list F) :
  a <> [] -> v <> [] ->
  exists out, Motion.np_convolve_same a v = Ok out /\
              length out = Nat.max (length a) (length v).
Proof.
  intros Ha Hv. unfold Motion.np_convolve_same.
  destruct a as [| x a]; [congruence |].
  destruct v as [| y v]; [congruence |].
  destruct (length (x :: a) <? length (y :: v))%nat eqn:Hlt.
  - apply Nat.ltb_lt in Hlt. eexists. split; [reflexivity |].
    rewrite length_map, length_seq. lia.
  - apply Nat.ltb_ge in Hlt. eexists. split; [reflexivity |].
    rewrite length_map, length_seq. lia.
Qed.

Lemma smooth_column_cases (kernel col : list F) :
  kernel <> [] ->
  (length kernel <= length col ->
   exists out, Motion.smooth_column kernel col = Ok out /\
               length out = length col) /\
  (length col < length kernel ->
   Motion.smooth_column kernel col = Raise ValueError).
Proof.
  intro Hk. unfold Motion.smooth_column.
  destruct col as [| c col].
  - split; [intro H; destruct kernel; [congruence | simpl in H; lia] |].
    intros _. reflexivity.
  - destruct (np_convolve_same_length (c :: col) kernel) as [out [Hout Hlen]];
      [discriminate | exact Hk |].
    rewrite Hout. cbn [bind]. rewrite Hlen. split; intro H.
    + rewrite Nat.max_l by exact H. rewrite Nat.eqb_refl.
      exists out. split; [reflexivity | lia].
    + destruct (Nat.eqb_spec (Nat.max (length (c :: col)) (length kernel))
                  (length (c :: col))) as [He | _]; [lia | reflexivity].
Qed.

Lemma gather_map {A B : Type} (f : A -> result B) (l : list A)
    (P : A -> B -> Prop) :
  (forall a, In a l -> exists b, f a = Ok b /\ P a b) ->
  exists bs, gather (map f l) = Ok bs /\ Forall2 P l bs.
Proof.
  induction l as [| a l IH]; intro H.
  - exists []. split; [reflexivity | constructor].
  - destruct (H a) as [b [Hb Hp]]; [left; reflexivity |].
    destruct IH as [bs [Hbs Hall]];
      [intros x Hx; apply H; right; exact Hx |].
    exists (b :: bs). cbn [map gather]. rewrite Hb. cbn [bind].
    rewrite Hbs. cbn [bind]. split; [reflexivity |].
    constructor; assumption.
Qed.

Lemma kernel_length (window_size : Z) (k : F) :
  length (repeat k (Z.to_nat window_size)) = Z.to_nat window_size.
Proof.
  apply repeat_length.
Qed.

Lemma column_length (data : trajectory F) (j : nat) (axis : joint F -> F) :
  length (Motion.column data j axis) = length data.
Proof.
  unfold Motion.column. apply length_map.
Qed.

Lemma apply_smoothing_enough (data : trajectory F) (window_size : Z) :
  (1 < window_size)%Z ->
  (window_size <= Z.of_nat (length data))%Z ->
  exists out,
    Motion.apply_smoothing data window_size = Ok out /\
    length out = length data /\
    Forall (fun p => length p = length (hd [] data)) out.
Proof.
  intros Hw Hlen. unfold Motion.apply_smoothing.
  destruct (window_size <=? 1)%Z eqn:H1; [apply Z.leb_le in H1; lia |].
  destruct data as [| p0 rest]; [simpl in Hlen; lia |].
  set (data := p0 :: rest) in *.
  set (kernel := repeat _ (Z.to_nat window_size)).
  assert (Hk : kernel <> []).
  { subst kernel. destruct (Z.to_nat window_size) eqn:Hz; [lia | discriminate]. }
  assert (Hcol : forall j axis,
             exists out, Motion.smooth_column kernel (Motion.column data j axis)
                         = Ok out /\ length out = length data).
  { intros j axis.
    destruct (smooth_column_cases kernel (Motion.column data j axis) Hk)
      as [Hok _].
    rewrite column_length in Hok. apply Hok.
    subst kernel. rewrite repeat_length. lia. }
  destruct (gather_map
              (fun j =>
                 xs <- Motion.smooth_column kernel (Motion.column data j jx) ;;
                 ys <- Motion.smooth_column kernel (Motion.column data j jy) ;;
                 zs <- Motion.smooth_column kernel (Motion.column data j jz) ;;
                 Ok (xs, ys, zs))
              (seq 0 (length p0)) (fun _ _ => True))
    as [cols [Hcols Hall]].
  { intros j _.
    destruct (Hcol j jx) as [xs [Hxs _]].
    destruct (Hcol j jy) as [ys [Hys _]].
    destruct (Hcol j jz) as [zs [Hzs _]].
    exists (xs, ys, zs). rewrite Hxs, Hys, Hzs. split; [reflexivity | exact I]. }
  rewrite Hcols. cbn [bind]. eexists. split; [reflexivity |].
  split; [rewrite length_map, length_seq; reflexivity |].
  apply Forall_map. apply Forall_forall. intros i _.
  rewrite length_map. apply Forall2_length in Hall.
  rewrite length_seq in Hall. symmetry. exact Hall.
Qed.

Lemma apply_smoothing_few (data : trajectory F) (window_size : Z) :
  (1 < window_size)%Z ->
  hd [] data <> [] ->
  (Z.of_nat (length data) < window_size)%Z ->
  Motion.apply_smoothing data window_size = Raise ValueError.
Proof.
  intros Hw Hjoints Hlen. unfold Motion.apply_smoothing.
  destruct (window_size <=? 1)%Z eqn:H1; [apply Z.leb_le in H1; lia |].
  destruct data as [| p0 rest]; [reflexivity |].
  set (data := p0 :: rest) in *.
  set (kernel := repeat _ (Z.to_nat window_size)).
  destruct p0 as [| j0 p0]; [simpl in Hjoints; congruence |].
  cbn [length seq map gather].
  assert (Hk : kernel <> []).
  { subst kernel. destruct (Z.to_nat window_size) eqn:Hz; [lia | discriminate]. }
  destruct (smooth_column_cases kernel (Motion.column data 0 jx) Hk)
    as [_ Hbad].
  rewrite Hbad; [reflexivity |].
  rewrite column_length. subst kernel. rewrite repeat_length. lia.
Qed.

(** X20: on at least as many frames as the window (a window above 1), the
    smoothing succeeds and returns as many frames as it got, each with the
    joint count of the first frame. *)
Theorem apply_smoothing_shape (data : trajectory F) (window_size : Z) :
  (1 < window_size)%Z ->
  (window_size <= Z.of_nat (length data))%Z ->
  exists out,
    Motion.apply_smoothing data window_size = Ok out /\
    length out = length data /\
    Forall (fun p => length p = length (hd [] data)) out.
Proof.
  apply apply_smoothing_enough.
Qed.

(** X21: on fewer frames than the window (a window above 1, at least one
    joint) the smoothing raises ValueError: the convolution is as long as
    the window and does not fit the column it is assigned to. *)
Theorem apply_smoothing_short (data : trajectory F) (window_size : Z) :
  (1 < window_size)%Z ->
  hd [] data <> [] ->
  (Z.of_nat (length data) < window_size)%Z ->
  Motion.apply_smoothing data window_size = Raise ValueError.
Proof.
  apply apply_smoothing_few.
Qed.

End SmoothFacts.


Lemma find_match_sound_witness :
  exists data, In ("visitor_a"%string, data) Samples.half_store /\
               FaceServer.similarity [1; 1; 1; 1]%float data = Ok 0.5%float.
Proof.
  apply (find_match_sound Samples.half_store [1; 1; 1; 1]%float
           "visitor_a"%string 0.5%float).
  vm_compute. reflexivity.
Defined.

Lemma find_match_maximal_witness :
  (1 <? 0.5)%float = false.
Proof.
  apply (find_match_maximal Samples.full_store [1; 1; 1; 1]%float
           (Some "visitor_b"%string) 1%float
           "visitor_a"%string [1; 0; 0; 0]%float 0.5%float).
  - vm_compute. reflexivity.
  - left. reflexivity.
  - vm_compute. reflexivity.
Defined.

Lemma find_match_raises_witness :
  FaceServer.find_match Samples.half_store [1; 0]%float = Raise ValueError.
Proof.
  apply (proj2 (find_match_raises Samples.half_store [1; 0]%float)).
  constructor. simpl. discriminate.
Defined.

Lemma verify_registered_known_witness :
  (FaceServer.SIMILARITY_THRESHOLD <? 1)%float = true /\
  exists v data, Some "visitor_b"%string = Some v /\
                 In (v, data) Samples.full_store.
Proof.
  apply (verify_registered_known (E := Samples.stub_engine)
           Samples.full_store Samples.one_pixel 1 1
           (Some "visitor_b"%string) 1%float).
  vm_compute. reflexivity.
Defined.

Lemma assign_keys_witness :
  NoDup (map fst (FaceServer.assign Samples.half_store "visitor_b"
                    [1; 1; 1; 1]%float)) /\
  length (FaceServer.assign Samples.half_store "visitor_b"
            [1; 1; 1; 1]%float) = 2%nat.
Proof.
  apply (assign_keys Samples.half_store "visitor_b" [1; 1; 1; 1]%float).
  constructor; [intros [] | constructor].
Defined.

Lemma decode_image_exact_witness :
  exists img,
    FaceServer.decode_image Samples.one_pixel 1 1 = Ok img /\
    Z.of_nat (length img) = 1%Z /\
    Forall (fun row => Z.of_nat (length row) = 1%Z) img /\
    FaceServer.channels_of img = Samples.one_pixel.
Proof.
  apply (decode_image_exact Samples.one_pixel 1 1); [lia | lia | reflexivity].
Defined.

Lemma process_image_undersized_witness :
  FaceServer.process_image (E := Samples.stub_engine) Samples.one_pixel 2 1
    = Raise ValueError \/
  FaceServer.process_image (E := Samples.stub_engine) Samples.one_pixel 2 1
    = Raise ZeroDivisionError.
Proof.
  apply (process_image_undersized (E := Samples.stub_engine)
           Samples.one_pixel 2 1); [lia | simpl; lia].
Defined.

Lemma center_crop_shape_witness :
  let out := FaceServer.center_crop Samples.tile 3 3 4 in
  Z.of_nat (length out) = 1%Z /\
  Forall (fun row => Z.of_nat (length row) = 1%Z) out.
Proof.
  apply (center_crop_shape Samples.tile 3 3 4); [lia | reflexivity |].
  repeat constructor.
Defined.

Lemma apply_smoothing_shape_witness :
  exists out,
    Motion.apply_smoothing Samples.short_clip 5 = Ok out /\
    length out = 5%nat /\
    Forall (fun p => length p = 22%nat) out.
Proof.
  apply (apply_smoothing_shape Samples.short_clip 5); [lia | simpl; lia].
Defined.

Lemma apply_smoothing_short_witness :
  Motion.apply_smoothing Samples.reach_clip 5 = Raise ValueError.
Proof.
  apply (apply_smoothing_short Samples.reach_clip 5);
    [lia | discriminate | simpl; lia].
Defined.

(** ** The cleaning steps of convert_single_file *)

Section CleanFacts.

Context {F : Type} {SF : Scalar F} {TF : Motion.Trig F}.

Lemma process_motion_data_frames (fix_rotation : F) (data : trajectory F) :
  map (@length (joint F)) (Motion.process_motion_data fix_rotation data)
  = map (@length (joint F)) data.
Proof.
  unfold Motion.process_motion_data.
  destruct (negb (feqb fix_rotation (of_int 0))); [| reflexivity].
  rewrite map_map. apply map_ext. intro p. apply length_map.
Qed.

Lemma map_length_shape {A : Type} (a b : list (list A)) :
  map (@length A) a = map (@length A) b ->
  length a = length b /\ (hd [] a = [] <-> hd [] b = []).
Proof.
  intro H. split.
  - rewrite <- (length_map (@length A) a), H. apply length_map.
  - destruct a as [| x a], b as [| y b]; try discriminate; [tauto |].
    injection H as Hxy _. cbn [hd].
    destruct x, y; try discriminate; split; congruence.
Qed.

Lemma prefix_whole {A : Type} (a : list A) (n : Z) :
  (Z.of_nat (length a) <= n)%Z -> Motion.prefix a n = a.
Proof.
  intro H. rewrite prefix_nonneg by lia. apply firstn_all2. lia.
Qed.

Lemma prefix_head {A : Type} (a : list (list A)) (n : Z) :
  (0 < n)%Z -> hd [] (Motion.prefix a n) = hd [] a.
Proof.
  intro H. rewrite prefix_nonneg by lia.
  destruct (Z.to_nat n) eqn:E; [lia |]. destruct a; reflexivity.
Qed.

Lemma prefix_length {A : Type} (a : list A) (n : Z) :
  (0 <= n)%Z -> length (Motion.prefix a n) = Nat.min (Z.to_nat n) (length a).
Proof.
  intro H. rewrite prefix_nonneg by lia. apply length_firstn.
Qed.

(** X22: a clip of fewer than five frames (at least one joint) makes the
    cleaning steps raise ValueError at the smoothing, so that
    convert_single_file returns False. *)
Theorem clean_motion_short (data_3d : trajectory F) :
  hd [] data_3d <> [] -> (length data_3d < 5)%nat ->
  Motion.clean_motion data_3d = Raise ValueError.
Proof.
  intros Hjoints Hlen. unfold Motion.clean_motion. cbv zeta.
  set (corrected := Motion.process_motion_data Motion.FIX_ROTATION data_3d).
  destruct (map_length_shape corrected data_3d
              (process_motion_data_frames _ _)) as [Hl Hh].
  pose proof (detect_active_frames_ge_10 corrected Motion.STOP_THRESHOLD)
    as Hge.
  unfold trajectory, pose in *.
  rewrite prefix_whole by lia.
  rewrite apply_smoothing_few; [reflexivity | reflexivity | tauto |].
  unfold Motion.SMOOTH_WINDOW, pose. lia.
Qed.

(** X23: on a clip of at least five frames (at least one joint) the
    smoothing returns the frames the trimming kept, the distance between
    its first and last frames is defined, and the cleaning steps raise
    exactly when [int(max_dist * 40)] does; otherwise they return the kept
    frames followed by max(15, min(60, k)) transition frames. *)
Theorem clean_motion_length (data_3d : trajectory F) :
  hd [] data_3d <> [] -> (5 <= length data_3d)%nat ->
  let corrected := Motion.process_motion_data Motion.FIX_ROTATION data_3d in
  let active_len :=
    Motion.detect_active_frames corrected Motion.STOP_THRESHOLD in
  let kept := Nat.min (Z.to_nat active_len) (length data_3d) in
  exists smoothed d,
    Motion.apply_smoothing (Motion.prefix corrected active_len)
      Motion.SMOOTH_WINDOW = Ok smoothed /\
    length smoothed = kept /\
    Motion.max_dist smoothed = Ok d /\
    (forall e, to_int (fmul d (of_int 40)) = Raise e ->
       Motion.clean_motion data_3d = Raise e) /\
    (forall k, to_int (fmul d (of_int 40)) = Ok k ->
       exists out, Motion.clean_motion data_3d = Ok out /\
         length out = (kept + Z.to_nat (Z.max 15 (Z.min 60 k)))%nat).
Proof.
  intros Hjoints Hlen corrected active_len kept.
  destruct (map_length_shape corrected data_3d
              (process_motion_data_frames _ _)) as [Hl Hh].
  pose proof (detect_active_frames_ge_10 corrected Motion.STOP_THRESHOLD)
    as Hge.
  fold active_len in Hge.
  unfold trajectory, pose in *.
  assert (Hkept : length (Motion.prefix corrected active_len) = kept).
  { rewrite prefix_length by lia. rewrite Hl. reflexivity. }
  destruct (apply_smoothing_enough (Motion.prefix corrected active_len)
              Motion.SMOOTH_WINDOW) as [smoothed [Hs [Hsl Hsj]]].
  { unfold Motion.SMOOTH_WINDOW. lia. }
  { unfold pose. rewrite Hkept. unfold Motion.SMOOTH_WINDOW. subst kept.
    lia. }
  unfold pose in *.
  rewrite prefix_head in Hsj by lia.
  assert (Hne : smoothed <> []).
  { intro E. rewrite E in Hsl. simpl in Hsl. subst kept. lia. }
  assert (Hposes : forall p, In p smoothed -> p <> []).
  { intros p Hp E. rewrite Forall_forall in Hsj. specialize (Hsj p Hp).
    rewrite E in Hsj. simpl in Hsj. symmetry in Hsj.
    apply length_zero_iff_nil in Hsj. tauto. }
  destruct (max_dist_defined smoothed Hne Hposes) as [d Hd].
  exists smoothed, d.
  split; [exact Hs |]. split; [rewrite Hsl; exact Hkept |].
  split; [exact Hd |].
  unfold Motion.clean_motion. cbv zeta. unfold trajectory, pose.
  fold corrected. fold active_len. rewrite Hs. cbn [bind Motion.MAKE_LOOP]. split.
  - intros e He.
    unfold Motion.append_loop_frames, Motion.loop_frames,
      Motion.transition_len.
    destruct smoothed as [| p rest]; [congruence |].
    cbn [Motion.first_frame Motion.last_frame bind].
    rewrite Hd. cbn [bind]. rewrite He. reflexivity.
  - intros k Hk.
    destruct (append_loop_frames_grows smoothed (Z.max 15 (Z.min 60 k)))
      as [out [Hout Hol]].
    { unfold Motion.transition_len. rewrite Hd. cbn [bind]. rewrite Hk.
      reflexivity. }
    exists out. split; [exact Hout |]. unfold pose in *.
    rewrite Hol, Hsl, Hkept. reflexivity.
Qed.

Lemma joints_of_length (n : nat) (row : list F) :
  length row = (3 * n)%nat -> length (Motion.joints_of row) = n.
Proof.
  revert row. induction n as [| n IH]; intros row Hrow.
  - destruct row; [reflexivity | discriminate].
  - destruct row as [| x [| y [| z rest]]]; simpl in Hrow; try lia.
    cbn [Motion.joints_of length]. f_equal. apply IH. lia.
Qed.

(** X24: a two-dimensional array of [dims] columns is refused when [dims]
    is 263, is no multiple of 3, or holds fewer than 22 joints; otherwise
    every row becomes the first 22 of its joints. *)
Theorem data_3d_of_flat (dims : nat) (rows : list (list F)) :
  Forall (fun row => length row = dims) rows ->
  match Motion.data_3d_of (Motion.Raw2 dims rows) with
  | None => dims = 263%nat \/ dims mod 3 <> 0%nat \/ (dims / 3 < 22)%nat
  | Some data_3d =>
      dims <> 263%nat /\ dims mod 3 = 0%nat /\ (22 <= dims / 3)%nat /\
      data_3d = map (fun row => firstn 22 (Motion.joints_of row)) rows /\
      Forall (fun p => length p = 22%nat) data_3d
  end.
Proof.
  intro Hrows. unfold Motion.data_3d_of.
  destruct (Nat.eqb_spec dims 263) as [E | Hn263]; [left; exact E |].
  destruct (Nat.eqb_spec (dims mod 3) 0) as [Hm | Hm];
    [| right; left; exact Hm].
  assert (Hd : dims = (3 * (dims / 3))%nat).
  { pose proof (Nat.div_mod_eq dims 3). lia. }
  assert (Hj : Forall (fun row => length (Motion.joints_of row)
                                  = (dims / 3)%nat) rows).
  { eapply Forall_impl; [| exact Hrows]. intros row Hrow. cbv beta in Hrow.
    apply joints_of_length. lia. }
  destruct (Nat.eqb_spec (dims / 3) 22) as [E22 | Hn22].
  - split; [exact Hn263 |]. split; [exact Hm |]. split; [lia |]. split.
    + apply map_ext_Forall. eapply Forall_impl; [| exact Hj].
      intros row Hrow. cbv beta in Hrow. symmetry. apply firstn_all2. lia.
    + apply Forall_map. eapply Forall_impl; [| exact Hj].
      intros row Hrow. cbv beta in Hrow. lia.
  - destruct (Nat.ltb_spec 22 (dims / 3)) as [Hgt | Hle];
      [| right; right; lia].
    split; [exact Hn263 |]. split; [exact Hm |]. split; [lia |]. split.
    + rewrite map_map. reflexivity.
    + rewrite map_map. apply Forall_map. eapply Forall_impl; [| exact Hj].
      intros row Hrow. cbv beta in Hrow. rewrite length_firstn. lia.
Qed.

End CleanFacts.

Lemma clean_motion_short_witness :
  Motion.clean_motion (TF := Samples.libm_samples) Samples.reach_clip
  = Raise ValueError.
Proof.
  apply (clean_motion_short (TF := Samples.libm_samples) Samples.reach_clip);
    [discriminate | simpl; lia].
Defined.

Lemma clean_motion_length_witness :
  exists out,
    Motion.clean_motion (TF := Samples.libm_samples) Samples.short_clip
      = Ok out /\
    length out = 20%nat.
Proof.
  destruct (clean_motion_length (TF := Samples.libm_samples)
              Samples.short_clip)
    as [smoothed [d [Hs [_ [Hd [_ Hk]]]]]];
    [discriminate | simpl; lia |].
  vm_compute in Hs. injection Hs as <-.
  vm_compute in Hd. injection Hd as <-.
  destruct (Hk 0%Z) as [out [Hout Hlen]]; [vm_compute; reflexivity |].
  exists out. split; [exact Hout | exact Hlen].
Defined.

Lemma data_3d_of_flat_witness :
  match Motion.data_3d_of (Motion.Raw2 69 [Samples.flat_row]) with
  | None => 69%nat = 263%nat \/ (69 mod 3 <> 0)%nat \/ (69 / 3 < 22)%nat
  | Some data_3d =>
      69%nat <> 263%nat /\ (69 mod 3 = 0)%nat /\ (22 <= 69 / 3)%nat /\
      data_3d
      = map (fun row => firstn 22 (Motion.joints_of row))
            [Samples.flat_row] /\
      Forall (fun p => length p = 22%nat) data_3d
  end.
Proof.
  apply (data_3d_of_flat 69 [Samples.flat_row]).
  repeat constructor.
Defined.
